(** * A Uniswap-V2-style DEX on Odra: shallow embedding and verification

    This development embeds the pool ([Pair], src/src/dex/pair.rs) and the
    routing layer ([Router], src/src/dex/router.rs).  The checked-arithmetic
    and AMM-formula module [crate::math] and the embedded LP token
    [crate::token::LpToken] are not part of the sources at hand; they are
    modelled from the specification and marked as such.

    Unsigned 256-bit integers ([U256]) are integers of [Z] in the range
    [0 .. U256_MAX]; addresses are integers of [Z] ordered by [Z.lt], a total
    order standing for the derived [Ord] of [odra::Address]. *)

From Stdlib Require Import ZArith List Bool Lia.
Import ListNotations.
Open Scope Z_scope.

(** ** Errors (src/src/errors.rs) *)

Inductive DexError :=
| InsufficientLiquidity
| InsufficientInputAmount
| InsufficientOutputAmount
| InvalidPair
| PairExists
| PairNotFound
| ZeroAddress
| IdenticalAddresses
| InsufficientAmount
| TransferFailed
| DeadlineExpired
| ExcessiveSlippage
| Overflow
| Underflow
| DivisionByZero
| Unauthorized
| InvalidPath
| KInvariantViolated
| InsufficientLiquidityMinted
| InsufficientLiquidityBurned
| Locked
| InvalidFee.

(** [Result<A, DexError>] *)
Inductive result (A : Type) : Type :=
| Ok (a : A)
| Err (e : DexError).
Arguments Ok {A} a.
Arguments Err {A} e.

(** The [?] operator on a [Result]. *)
Definition rbind {A B} (r : result A) (k : A -> result B) : result B :=
  match r with
  | Ok a => k a
  | Err e => Err e
  end.

Notation "x <-? r ;; k" := (rbind r (fun x => k))
  (at level 61, r at next level, right associativity).
Notation "' p <-? r ;; k" := (rbind r (fun x => match x with p => k end))
  (at level 61, p pattern, r at next level, right associativity).

(** ** Checked 256-bit arithmetic ([crate::math::SafeMath]) *)

Module SafeMath.

Definition U256_MAX : Z := 2 ^ 256 - 1.

(** Modelled from the spec: [SafeMath] of [crate::math] (not in the sources).
    "checked addition/subtraction/multiplication/division over an unsigned
    wide integer type; every operation fails explicitly on
    overflow/underflow/division-by-zero instead of wrapping". *)
Definition add (a b : Z) : result Z :=
  if U256_MAX <? a + b then Err Overflow else Ok (a + b).

Definition sub (a b : Z) : result Z :=
  if a <? b then Err Underflow else Ok (a - b).

Definition mul (a b : Z) : result Z :=
  if U256_MAX <? a * b then Err Overflow else Ok (a * b).

Definition div (a b : Z) : result Z :=
  if b =? 0 then Err DivisionByZero else Ok (a / b).

End SafeMath.

(** ** AMM formulas ([crate::math::AmmMath]) *)

Module AmmMath.
Import SafeMath.

(** Modelled from the spec: [AmmMath::quote] (not in the sources).
    "[quote(amount_a, reserve_a, reserve_b) = amount_a * reserve_b / reserve_a],
    fails if [reserve_a == 0]". *)
Definition quote (amount_a reserve_a reserve_b : Z) : result Z :=
  if reserve_a =? 0 then Err InsufficientLiquidity else
  p <-? mul amount_a reserve_b ;;
  div p reserve_a.

(** Modelled from the spec: [AmmMath::get_amount_out] (not in the sources).
    "[amount_in_with_fee = amount_in * 997]; [numerator = amount_in_with_fee *
    reserve_out]; [denominator = reserve_in * 1000 + amount_in_with_fee];
    result = [numerator / denominator]. Fails on zero reserves." *)
Definition get_amount_out (amount_in reserve_in reserve_out : Z) : result Z :=
  if (reserve_in =? 0) || (reserve_out =? 0) then Err InsufficientLiquidity else
  amount_in_with_fee <-? mul amount_in 997 ;;
  numerator <-? mul amount_in_with_fee reserve_out ;;
  d <-? mul reserve_in 1000 ;;
  denominator <-? add d amount_in_with_fee ;;
  div numerator denominator.

(** Modelled from the spec: [AmmMath::get_amount_in] (not in the sources).
    "[numerator = reserve_in * amount_out * 1000]; [denominator = (reserve_out -
    amount_out) * 997]; result = [numerator / denominator + 1] ... Fails if
    [amount_out >= reserve_out]". *)
Definition get_amount_in (amount_out reserve_in reserve_out : Z) : result Z :=
  if reserve_out <=? amount_out then Err InsufficientLiquidity else
  n1 <-? mul reserve_in amount_out ;;
  numerator <-? mul n1 1000 ;;
  d1 <-? sub reserve_out amount_out ;;
  denominator <-? mul d1 997 ;;
  q <-? div numerator denominator ;;
  add q 1.

(** Modelled from the spec: [AmmMath::calculate_liquidity] (not in the
    sources).  "first-deposit case computes [sqrt(amount0 * amount1)];
    subsequent deposits compute [min(amount0 * total_supply / reserve0,
    amount1 * total_supply / reserve1)]"; on the first deposit the liquidity
    returned to the depositor is [floor(sqrt(amount0*amount1)) -
    MINIMUM_LIQUIDITY] (spec, section 8, first-mint example). *)
Definition calculate_liquidity (MINIMUM_LIQUIDITY : Z)
    (amount0 amount1 reserve0 reserve1 total_supply : Z) : result Z :=
  if total_supply =? 0 then
    p <-? mul amount0 amount1 ;;
    sub (Z.sqrt p) MINIMUM_LIQUIDITY
  else
    p0 <-? mul amount0 total_supply ;;
    l0 <-? div p0 reserve0 ;;
    p1 <-? mul amount1 total_supply ;;
    l1 <-? div p1 reserve1 ;;
    Ok (Z.min l0 l1).

(** Modelled from the spec: [AmmMath::calculate_burn_amounts] (not in the
    sources).  "burn computes [liquidity * reserve_i / total_supply] for each
    asset, pro rata". *)
Definition calculate_burn_amounts (liquidity reserve0 reserve1 total_supply : Z)
    : result (Z * Z) :=
  p0 <-? mul liquidity reserve0 ;;
  a0 <-? div p0 total_supply ;;
  p1 <-? mul liquidity reserve1 ;;
  a1 <-? div p1 total_supply ;;
  Ok (a0, a1).

End AmmMath.

(** ** Router quoting (src/src/dex/router.rs) *)

Module Router.
Import AmmMath.

(** The registry and the pools as the router sees them during one call:
    [get_pair] is [FactoryContractRef::get_pair], [pair_reserves p] the first
    two components of [PairContract::get_reserves] on pool [p]. *)
Record Chain := mkChain {
  get_pair : Z -> Z -> option Z;
  pair_reserves : Z -> Z * Z
}.

(** [Router::sort_tokens] *)
Definition sort_tokens (token_a token_b : Z) : Z * Z :=
  if token_a <? token_b then (token_a, token_b) else (token_b, token_a).

(** [Router::get_reserves] *)
Definition get_reserves (c : Chain) (token_a token_b : Z) : result (Z * Z) :=
  let (token0, _) := sort_tokens token_a token_b in
  match get_pair c token_a token_b with
  | None => Err PairNotFound
  | Some pair' =>
      let (reserve0, reserve1) := pair_reserves c pair' in
      if token_a =? token0 then Ok (reserve0, reserve1) else Ok (reserve1, reserve0)
  end.

(** The loop of [Router::get_amounts_out] from position [i] on: [amount] is
    [amounts[i]], [path] is [path[i..]]; hop [i] is quoted before hop [i+1]. *)
Fixpoint amounts_out_loop (c : Chain) (amount : Z) (path : list Z) : result (list Z) :=
  match path with
  | x :: ((y :: _) as rest) =>
      '(reserve_in, reserve_out) <-? get_reserves c x y ;;
      amount_out <-? get_amount_out amount reserve_in reserve_out ;;
      tl <-? amounts_out_loop c amount_out rest ;;
      Ok (amount :: tl)
  | _ => Ok [amount]
  end.

(** [Router::get_amounts_out] *)
Definition get_amounts_out (c : Chain) (amount_in : Z) (path : list Z) : result (list Z) :=
  if Nat.ltb (length path) 2 then Err InvalidPath else
  amounts_out_loop c amount_in path.

(** The loop of [Router::get_amounts_in] on [path[i..]]: the loop runs from
    the last hop backwards, so hop [i+1] is quoted before hop [i]. *)
Fixpoint amounts_in_loop (c : Chain) (amount_out : Z) (path : list Z) : result (list Z) :=
  match path with
  | x :: ((y :: _) as rest) =>
      tl <-? amounts_in_loop c amount_out rest ;;
      '(reserve_in, reserve_out) <-? get_reserves c x y ;;
      amount_in <-? get_amount_in (hd 0 tl) reserve_in reserve_out ;;
      Ok (amount_in :: tl)
  | _ => Ok [amount_out]
  end.

(** [Router::get_amounts_in] *)
Definition get_amounts_in (c : Chain) (amount_out : Z) (path : list Z) : result (list Z) :=
  if Nat.ltb (length path) 2 then Err InvalidPath else
  amounts_in_loop c amount_out path.

(** [Router::calculate_liquidity_amounts] *)
Definition calculate_liquidity_amounts (c : Chain) (token_a token_b : Z)
    (amount_a_desired amount_b_desired amount_a_min amount_b_min : Z)
    : result (Z * Z) :=
  match get_reserves c token_a token_b with
  | Ok (reserve_a, reserve_b) =>
      if negb (reserve_a =? 0) && negb (reserve_b =? 0) then
        amount_b_optimal <-? quote amount_a_desired reserve_a reserve_b ;;
        if amount_b_optimal <=? amount_b_desired then
          if amount_b_optimal <? amount_b_min then Err InsufficientAmount
          else Ok (amount_a_desired, amount_b_optimal)
        else
          amount_a_optimal <-? quote amount_b_desired reserve_b reserve_a ;;
          if amount_a_desired <? amount_a_optimal then Err InsufficientAmount
          else if amount_a_optimal <? amount_a_min then Err InsufficientAmount
          else Ok (amount_a_optimal, amount_b_desired)
      else Ok (amount_a_desired, amount_b_desired)
  | _ => Ok (amount_a_desired, amount_b_desired)
  end.

End Router.

(** ** Router entry points (src/src/dex/router.rs) *)

Module RouterOps.
Import Router.

(** The contracts the router calls and the execution context it reads:
    [factory_get_pair e factory a b] and [factory_create_pair] are the calls
    on [FactoryContractRef] at address [factory]; the [pair_*] calls are those
    of [PairContract] on the pool at the given address, made by the router;
    [token_transfer_from e token from to amount] is
    [Cep18TokenContractRef::transfer_from] made by the router.  A mutating
    call returns the environment after it; any behaviour is allowed, the
    theorems below hold for every instance. *)
Class External (E : Type) := {
  block_time_of : E -> Z;
  caller_of : E -> Z;
  factory_get_pair : E -> Z -> Z -> Z -> option Z;
  factory_create_pair : E -> Z -> Z -> Z -> result Z * E;
  pair_get_reserves : E -> Z -> Z * Z * Z;
  pair_mint : E -> Z -> Z -> result Z * E;
  pair_burn : E -> Z -> Z -> result (Z * Z) * E;
  pair_swap : E -> Z -> Z -> Z -> Z -> result unit * E;
  pair_transfer_from : E -> Z -> Z -> Z -> Z -> bool * E;
  token_transfer_from : E -> Z -> Z -> Z -> Z -> bool * E
}.

(** The storage of [Router] and the environment it runs in. *)
Record RWorld (E : Type) := mkRWorld {
  r_factory : Z;
  r_wcspr : Z;
  env : E
}.
Arguments mkRWorld {E}.
Arguments r_factory {E}. Arguments r_wcspr {E}. Arguments env {E}.

Definition set_env {E} (e : E) (w : RWorld E) : RWorld E :=
  {| r_factory := r_factory w; r_wcspr := r_wcspr w; env := e |}.

(** [Router::init] *)
Definition init {E} (factory wcspr : Z) (e : E) : RWorld E :=
  {| r_factory := factory; r_wcspr := wcspr; env := e |}.

(** A router entry point: state passing with [Result] errors; as for the
    pool, a call that returns [Err] is reverted as a whole with every call it
    made (see [run]). *)
Definition RM (E A : Type) := RWorld E -> result A * RWorld E.

Definition ret {E A} (a : A) : RM E A := fun w => (Ok a, w).

Definition bind {E A B} (m : RM E A) (k : A -> RM E B) : RM E B :=
  fun w => match m w with
           | (Ok a, w') => k a w'
           | (Err e, w') => (Err e, w')
           end.

Definition throw {E A} (e : DexError) : RM E A := fun w => (Err e, w).

Definition run {E A} (m : RM E A) (w : RWorld E) : result A * RWorld E :=
  match m w with
  | (Ok a, w') => (Ok a, w')
  | (Err e, _) => (Err e, w)
  end.

Module RNotations.
Notation "x <- m ;; k" := (bind m (fun x => k))
  (at level 61, m at next level, right associativity).
Notation "' p <- m ;; k" := (bind m (fun x => match x with p => k end))
  (at level 61, p pattern, m at next level, right associativity).
Notation "m ;;; k" := (bind m (fun _ => k))
  (at level 61, right associativity).
End RNotations.
Import RNotations.

Section Entry.
Context {E : Type} `{External E}.

(** The registry and the pools as [Router::get_reserves] sees them in [w]. *)
Definition chain_of (w : RWorld E) : Chain :=
  mkChain (factory_get_pair (env w) (r_factory w))
          (fun p => let '(reserve0, reserve1, _) := pair_get_reserves (env w) p in
                    (reserve0, reserve1)).

(** A call of one of the router's read-only functions ([get_amounts_out],
    [get_amounts_in], [calculate_liquidity_amounts]) on the current state. *)
Definition view {A} (f : Chain -> result A) : RM E A := fun w => (f (chain_of w), w).

Definition caller : RM E Z := fun w => (Ok (caller_of (env w)), w).

(** [Router::ensure_deadline] *)
Definition ensure_deadline (deadline : Z) : RM E unit :=
  fun w => if deadline <? block_time_of (env w) then (Err DeadlineExpired, w) else (Ok tt, w).

(** [Router::get_pair] (the private one, failing with [PairNotFound]) *)
Definition get_pair (token_a token_b : Z) : RM E Z :=
  fun w => match factory_get_pair (env w) (r_factory w) token_a token_b with
           | Some p => (Ok p, w)
           | None => (Err PairNotFound, w)
           end.

(** [Router::get_or_create_pair] *)
Definition get_or_create_pair (token_a token_b : Z) : RM E Z :=
  fun w => match factory_get_pair (env w) (r_factory w) token_a token_b with
           | Some p => (Ok p, w)
           | None => let (r, e') := factory_create_pair (env w) (r_factory w) token_a token_b in
                     (r, set_env e' w)
           end.

(** [Router::safe_transfer_from] *)
Definition safe_transfer_from (token from to amount : Z) : RM E unit :=
  fun w => let (success, e') := token_transfer_from (env w) token from to amount in
           if success then (Ok tt, set_env e' w) else (Err TransferFailed, set_env e' w).

(** Calls on a pool through [PairContractContractRef]. *)
Definition call_pair_mint (pair' to : Z) : RM E Z :=
  fun w => let (r, e') := pair_mint (env w) pair' to in (r, set_env e' w).
Definition call_pair_burn (pair' to : Z) : RM E (Z * Z) :=
  fun w => let (r, e') := pair_burn (env w) pair' to in (r, set_env e' w).
Definition call_pair_swap (pair' amount0_out amount1_out to : Z) : RM E unit :=
  fun w => let (r, e') := pair_swap (env w) pair' amount0_out amount1_out to in
           (r, set_env e' w).
Definition call_pair_transfer_from (pair' from to amount : Z) : RM E bool :=
  fun w => let (b, e') := pair_transfer_from (env w) pair' from to amount in
           (Ok b, set_env e' w).

(** [Router::add_liquidity] *)
Definition add_liquidity (token_a token_b amount_a_desired amount_b_desired
    amount_a_min amount_b_min to deadline : Z) : RM E (Z * Z * Z) :=
  ensure_deadline deadline ;;;
  '(amount_a, amount_b) <- view (fun c => calculate_liquidity_amounts c token_a token_b
                                    amount_a_desired amount_b_desired amount_a_min amount_b_min) ;;
  pair' <- get_or_create_pair token_a token_b ;;
  from_a <- caller ;;
  safe_transfer_from token_a from_a pair' amount_a ;;;
  from_b <- caller ;;
  safe_transfer_from token_b from_b pair' amount_b ;;;
  liquidity <- call_pair_mint pair' to ;;
  ret (amount_a, amount_b, liquidity).

(** [Router::remove_liquidity]; the boolean returned by the LP
    [transfer_from] is discarded, as in the source. *)
Definition remove_liquidity (token_a token_b liquidity amount_a_min amount_b_min to deadline : Z)
    : RM E (Z * Z) :=
  ensure_deadline deadline ;;;
  pair' <- get_pair token_a token_b ;;
  from <- caller ;;
  _ <- call_pair_transfer_from pair' from pair' liquidity ;;
  '(amount0, amount1) <- call_pair_burn pair' to ;;
  let (token0, _) := sort_tokens token_a token_b in
  let '(amount_a, amount_b) :=
    if token_a =? token0 then (amount0, amount1) else (amount1, amount0) in
  if amount_a <? amount_a_min then throw InsufficientAmount else
  if amount_b <? amount_b_min then throw InsufficientAmount else
  ret (amount_a, amount_b).

(** The loop of [Router::execute_swap] from hop [i] on: [path] is
    [path[i..]] and [amounts] is [amounts[i..]].  Its callers pass the
    amounts computed by [get_amounts_out] or [get_amounts_in], which have the
    length of the path, so every index of the source is in range. *)
Fixpoint execute_swap_loop (amounts path : list Z) (to : Z) : RM E unit :=
  match path, amounts with
  | input :: ((output :: rest) as path'), _ :: ((amount_out :: _) as amounts') =>
      let (token0, _) := sort_tokens input output in
      let '(amount0_out, amount1_out) :=
        if input =? token0 then (0, amount_out) else (amount_out, 0) in
      recipient <- (match rest with
                    | next :: _ => get_pair output next
                    | [] => ret to
                    end) ;;
      pair' <- get_pair input output ;;
      call_pair_swap pair' amount0_out amount1_out recipient ;;;
      execute_swap_loop amounts' path' to
  | _, _ => ret tt
  end.

(** [Router::execute_swap] *)
Definition execute_swap (amounts path : list Z) (to : Z) : RM E unit :=
  execute_swap_loop amounts path to.

(** [Router::swap_exact_tokens_for_tokens]; [amounts] has the length of
    [path], at least 2, once [get_amounts_out] succeeds. *)
Definition swap_exact_tokens_for_tokens (amount_in amount_out_min : Z) (path : list Z)
    (to deadline : Z) : RM E (list Z) :=
  ensure_deadline deadline ;;;
  amounts <- view (fun c => get_amounts_out c amount_in path) ;;
  if nth (length amounts - 1) amounts 0 <? amount_out_min then
    throw InsufficientOutputAmount else
  pair' <- get_pair (nth 0 path 0) (nth 1 path 0) ;;
  from <- caller ;;
  safe_transfer_from (nth 0 path 0) from pair' (nth 0 amounts 0) ;;;
  execute_swap amounts path to ;;;
  ret amounts.

(** [Router::swap_tokens_for_exact_tokens] *)
Definition swap_tokens_for_exact_tokens (amount_out amount_in_max : Z) (path : list Z)
    (to deadline : Z) : RM E (list Z) :=
  ensure_deadline deadline ;;;
  amounts <- view (fun c => get_amounts_in c amount_out path) ;;
  if amount_in_max <? nth 0 amounts 0 then throw ExcessiveSlippage else
  pair' <- get_pair (nth 0 path 0) (nth 1 path 0) ;;
  from <- caller ;;
  safe_transfer_from (nth 0 path 0) from pair' (nth 0 amounts 0) ;;;
  execute_swap amounts path to ;;;
  ret amounts.

End Entry.
End RouterOps.

(** ** The pool (src/src/dex/pair.rs) *)

Module Pair.
Import SafeMath AmmMath.

(** Modelled from the spec: the external token ledger ([Cep18TokenContractRef],
    section 6 of the spec): "[balance_of(owner) -> amount];
    [transfer(to, amount) -> success:boolean]".  [balance_of l token owner] is
    [owner]'s balance of asset [token]; [transfer l token sender to amount]
    is the call made by [sender] on asset [token].  Any behaviour is allowed:
    the theorems below hold for every instance. *)
Class TokenLedger (L : Type) := {
  balance_of : L -> Z -> Z -> Z;
  transfer : L -> Z -> Z -> Z -> Z -> bool * L
}.

(** The storage of [Pair] (its [Var]s and the embedded [LpToken]) together
    with the part of the environment the pool reads: the asset ledgers, its
    own address, the caller and the block time.  The LP token is modelled
    from the spec ("Embedded liquidity-share ledger: total supply +
    per-holder balances"). *)
Record World (L : Type) := mkWorld {
  token0 : Z;
  token1 : Z;
  factory : Z;
  reserve0 : Z;
  reserve1 : Z;
  block_timestamp_last : Z;
  price0_cumulative_last : Z;
  price1_cumulative_last : Z;
  k_last : Z;
  locked : bool;
  lp_total_supply : Z;
  lp_balances : Z -> Z;
  ledger : L;
  self_address : Z;
  block_time : Z
}.
Arguments mkWorld {L}.
Arguments token0 {L}. Arguments token1 {L}. Arguments factory {L}.
Arguments reserve0 {L}. Arguments reserve1 {L}.
Arguments block_timestamp_last {L}.
Arguments price0_cumulative_last {L}. Arguments price1_cumulative_last {L}.
Arguments k_last {L}. Arguments locked {L}.
Arguments lp_total_supply {L}. Arguments lp_balances {L}.
Arguments ledger {L}. Arguments self_address {L}. Arguments block_time {L}.

Section Setters.
Context {L : Type}.

Definition set_locked (b : bool) (w : World L) : World L :=
  {| token0 := token0 w; token1 := token1 w; factory := factory w;
     reserve0 := reserve0 w; reserve1 := reserve1 w;
     block_timestamp_last := block_timestamp_last w;
     price0_cumulative_last := price0_cumulative_last w;
     price1_cumulative_last := price1_cumulative_last w;
     k_last := k_last w; locked := b;
     lp_total_supply := lp_total_supply w; lp_balances := lp_balances w;
     ledger := ledger w; self_address := self_address w; block_time := block_time w |}.

Definition set_reserves (r0 r1 ts : Z) (w : World L) : World L :=
  {| token0 := token0 w; token1 := token1 w; factory := factory w;
     reserve0 := r0; reserve1 := r1;
     block_timestamp_last := ts;
     price0_cumulative_last := price0_cumulative_last w;
     price1_cumulative_last := price1_cumulative_last w;
     k_last := k_last w; locked := locked w;
     lp_total_supply := lp_total_supply w; lp_balances := lp_balances w;
     ledger := ledger w; self_address := self_address w; block_time := block_time w |}.

Definition set_k_last (k : Z) (w : World L) : World L :=
  {| token0 := token0 w; token1 := token1 w; factory := factory w;
     reserve0 := reserve0 w; reserve1 := reserve1 w;
     block_timestamp_last := block_timestamp_last w;
     price0_cumulative_last := price0_cumulative_last w;
     price1_cumulative_last := price1_cumulative_last w;
     k_last := k; locked := locked w;
     lp_total_supply := lp_total_supply w; lp_balances := lp_balances w;
     ledger := ledger w; self_address := self_address w; block_time := block_time w |}.

Definition set_lp (supply : Z) (balances : Z -> Z) (w : World L) : World L :=
  {| token0 := token0 w; token1 := token1 w; factory := factory w;
     reserve0 := reserve0 w; reserve1 := reserve1 w;
     block_timestamp_last := block_timestamp_last w;
     price0_cumulative_last := price0_cumulative_last w;
     price1_cumulative_last := price1_cumulative_last w;
     k_last := k_last w; locked := locked w;
     lp_total_supply := supply; lp_balances := balances;
     ledger := ledger w; self_address := self_address w; block_time := block_time w |}.

Definition set_ledger (l : L) (w : World L) : World L :=
  {| token0 := token0 w; token1 := token1 w; factory := factory w;
     reserve0 := reserve0 w; reserve1 := reserve1 w;
     block_timestamp_last := block_timestamp_last w;
     price0_cumulative_last := price0_cumulative_last w;
     price1_cumulative_last := price1_cumulative_last w;
     k_last := k_last w; locked := locked w;
     lp_total_supply := lp_total_supply w; lp_balances := lp_balances w;
     ledger := l; self_address := self_address w; block_time := block_time w |}.

Definition set_block_time (t : Z) (w : World L) : World L :=
  {| token0 := token0 w; token1 := token1 w; factory := factory w;
     reserve0 := reserve0 w; reserve1 := reserve1 w;
     block_timestamp_last := block_timestamp_last w;
     price0_cumulative_last := price0_cumulative_last w;
     price1_cumulative_last := price1_cumulative_last w;
     k_last := k_last w; locked := locked w;
     lp_total_supply := lp_total_supply w; lp_balances := lp_balances w;
     ledger := ledger w; self_address := self_address w; block_time := t |}.

End Setters.

(** A contract method: state passing with [Result] errors.  Writes made
    before an error stay in the returned state; whether they survive is
    decided by [run] below. *)
Definition M (L A : Type) := World L -> result A * World L.

Definition ret {L A} (a : A) : M L A := fun w => (Ok a, w).

Definition bind {L A B} (m : M L A) (k : A -> M L B) : M L B :=
  fun w => match m w with
           | (Ok a, w') => k a w'
           | (Err e, w') => (Err e, w')
           end.

Definition throw {L A} (e : DexError) : M L A := fun w => (Err e, w).

(** [r?] for a pure [Result] inside a method. *)
Definition lift {L A} (r : result A) : M L A := fun w => (r, w).

Notation "x <- m ;; k" := (bind m (fun x => k))
  (at level 61, m at next level, right associativity).
Notation "' p <- m ;; k" := (bind m (fun x => match x with p => k end))
  (at level 61, p pattern, m at next level, right associativity).
Notation "m ;;; k" := (bind m (fun _ => k))
  (at level 61, right associativity).

(** Odra reverts an entry point that returns [Err], and the Casper runtime
    discards every write of a reverted call (spec, sections 5 and 7: "an
    aborted call leaves all persistent state ... exactly as it was before the
    call began"). *)
Definition run {L A} (m : M L A) (w : World L) : result A * World L :=
  match m w with
  | (Ok a, w') => (Ok a, w')
  | (Err e, _) => (Err e, w)
  end.

Section Methods.
Context {L : Type} `{TokenLedger L}.

(** [Pair::get_reserves] *)
Definition get_reserves : M L (Z * Z * Z) :=
  fun w => (Ok (reserve0 w, reserve1 w, block_timestamp_last w), w).

(** [Pair::token0], [Pair::token1] *)
Definition get_token0 : M L Z := fun w => (Ok (token0 w), w).
Definition get_token1 : M L Z := fun w => (Ok (token1 w), w).

(** [self.env().self_address()] *)
Definition get_self_address : M L Z := fun w => (Ok (self_address w), w).

(** [Pair::total_supply], [Pair::balance_of] *)
Definition total_supply : M L Z := fun w => (Ok (lp_total_supply w), w).
Definition balance_of_lp (owner : Z) : M L Z := fun w => (Ok (lp_balances w owner), w).

(** Modelled from the spec: [LpToken::mint] (not in the sources), "credits"
    [amount] shares to [to] and adds them to the total supply. *)
Definition lp_mint (to amount : Z) : M L unit :=
  fun w => (Ok tt, set_lp (lp_total_supply w + amount)
                          (fun a => if a =? to then lp_balances w a + amount
                                    else lp_balances w a) w).

(** Modelled from the spec: [LpToken::burn] (not in the sources), "burns the
    shares" of [from]. *)
Definition lp_burn (from amount : Z) : M L unit :=
  fun w => (Ok tt, set_lp (lp_total_supply w - amount)
                          (fun a => if a =? from then lp_balances w a - amount
                                    else lp_balances w a) w).

(** [self.k_last.set(k)] *)
Definition store_k_last (k : Z) : M L unit := fun w => (Ok tt, set_k_last k w).

(** [Pair::update_reserves]; the [Sync] event is not modelled (no event is
    read back by the contract). *)
Definition update_reserves (balance0 balance1 : Z) : M L unit :=
  fun w => (Ok tt, set_reserves balance0 balance1 (block_time w) w).

(** [Pair::get_token_balance] *)
Definition get_token_balance (token : Z) : M L Z :=
  fun w => (Ok (balance_of (ledger w) token (self_address w)), w).

(** [Pair::safe_transfer] *)
Definition safe_transfer (token to amount : Z) : M L unit :=
  fun w =>
    let (success, l') := transfer (ledger w) token (self_address w) to amount in
    if success then (Ok tt, set_ledger l' w) else (Err TransferFailed, set_ledger l' w).

(** [Pair::lock] *)
Definition lock : M L unit :=
  fun w => if locked w then (Err Locked, w) else (Ok tt, set_locked true w).

(** [Pair::unlock] *)
Definition unlock : M L unit := fun w => (Ok tt, set_locked false w).

Variable MINIMUM_LIQUIDITY : Z.

(** [Pair::mint] (the [LiquidityAdded] event is not modelled) *)
Definition mint (to : Z) : M L Z :=
  lock ;;;
  '(reserve0, reserve1, _) <- get_reserves ;;
  t0 <- get_token0 ;;
  balance0 <- get_token_balance t0 ;;
  t1 <- get_token1 ;;
  balance1 <- get_token_balance t1 ;;
  amount0 <- lift (sub balance0 reserve0) ;;
  amount1 <- lift (sub balance1 reserve1) ;;
  total_supply <- total_supply ;;
  liquidity <-
    (if total_supply =? 0 then
       liquidity <- lift (calculate_liquidity MINIMUM_LIQUIDITY
                            amount0 amount1 reserve0 reserve1 total_supply) ;;
       self <- get_self_address ;;
       lp_mint self MINIMUM_LIQUIDITY ;;;
       ret liquidity
     else
       lift (calculate_liquidity MINIMUM_LIQUIDITY
               amount0 amount1 reserve0 reserve1 total_supply)) ;;
  if liquidity =? 0 then throw InsufficientLiquidityMinted else
  lp_mint to liquidity ;;;
  update_reserves balance0 balance1 ;;;
  '(new_reserve0, new_reserve1, _) <- get_reserves ;;
  k <- lift (mul new_reserve0 new_reserve1) ;;
  store_k_last k ;;;
  unlock ;;;
  ret liquidity.

(** [Pair::burn] (the [LiquidityRemoved] event is not modelled) *)
Definition burn (to : Z) : M L (Z * Z) :=
  lock ;;;
  '(reserve0, reserve1, _) <- get_reserves ;;
  token0 <- get_token0 ;;
  token1 <- get_token1 ;;
  balance0 <- get_token_balance token0 ;;
  balance1 <- get_token_balance token1 ;;
  self <- get_self_address ;;
  liquidity <- balance_of_lp self ;;
  total_supply <- total_supply ;;
  '(amount0, amount1) <- lift (calculate_burn_amounts liquidity reserve0 reserve1 total_supply) ;;
  lp_burn self liquidity ;;;
  safe_transfer token0 to amount0 ;;;
  safe_transfer token1 to amount1 ;;;
  new_balance0 <- lift (sub balance0 amount0) ;;
  new_balance1 <- lift (sub balance1 amount1) ;;
  update_reserves new_balance0 new_balance1 ;;;
  unlock ;;;
  ret (amount0, amount1).

(** The optimistic transfers of [Pair::swap] (pair.rs, lines 251-256). *)
Definition swap_send_out (token0 token1 to amount0_out amount1_out : Z) : M L unit :=
  (if negb (amount0_out =? 0) then safe_transfer token0 to amount0_out else ret tt) ;;;
  (if negb (amount1_out =? 0) then safe_transfer token1 to amount1_out else ret tt).

(** [Pair::swap] (the [Swap] event is not modelled) *)
Definition swap (amount0_out amount1_out to : Z) : M L unit :=
  lock ;;;
  if (amount0_out =? 0) && (amount1_out =? 0) then throw InsufficientOutputAmount else
  '(reserve0, reserve1, _) <- get_reserves ;;
  if (reserve0 <=? amount0_out) || (reserve1 <=? amount1_out) then
    throw InsufficientLiquidity else
  token0 <- get_token0 ;;
  token1 <- get_token1 ;;
  if (to =? token0) || (to =? token1) then throw InvalidPair else
  swap_send_out token0 token1 to amount0_out amount1_out ;;;
  balance0 <- get_token_balance token0 ;;
  balance1 <- get_token_balance token1 ;;
  d0 <- lift (sub reserve0 amount0_out) ;;
  amount0_in <-
    (if d0 <? balance0 then
       d0' <- lift (sub reserve0 amount0_out) ;;
       lift (sub balance0 d0')
     else ret 0) ;;
  d1 <- lift (sub reserve1 amount1_out) ;;
  amount1_in <-
    (if d1 <? balance1 then
       d1' <- lift (sub reserve1 amount1_out) ;;
       lift (sub balance1 d1')
     else ret 0) ;;
  if (amount0_in =? 0) && (amount1_in =? 0) then throw InsufficientInputAmount else
  m0 <- lift (mul balance0 1000) ;;
  f0 <- lift (mul amount0_in 3) ;;
  balance0_adjusted <- lift (sub m0 f0) ;;
  m1 <- lift (mul balance1 1000) ;;
  f1 <- lift (mul amount1_in 3) ;;
  balance1_adjusted <- lift (sub m1 f1) ;;
  k_new <- lift (mul balance0_adjusted balance1_adjusted) ;;
  r01 <- lift (mul reserve0 reserve1) ;;
  k_old <- lift (mul r01 1000000) ;;
  if k_new <? k_old then throw KInvariantViolated else
  update_reserves balance0 balance1 ;;;
  unlock ;;;
  ret tt.

(** [Pair::skim] *)
Definition skim (to : Z) : M L unit :=
  token0 <- get_token0 ;;
  token1 <- get_token1 ;;
  '(reserve0, reserve1, _) <- get_reserves ;;
  balance0 <- get_token_balance token0 ;;
  balance1 <- get_token_balance token1 ;;
  (if reserve0 <? balance0 then
     a <- lift (sub balance0 reserve0) ;; safe_transfer token0 to a
   else ret tt) ;;;
  (if reserve1 <? balance1 then
     a <- lift (sub balance1 reserve1) ;; safe_transfer token1 to a
   else ret tt) ;;;
  ret tt.

(** [Pair::sync] *)
Definition sync : M L unit :=
  token0 <- get_token0 ;;
  token1 <- get_token1 ;;
  balance0 <- get_token_balance token0 ;;
  balance1 <- get_token_balance token1 ;;
  update_reserves balance0 balance1.

(** [Pair::get_price0]: the price of [token0] in [token1], scaled by
    [10^18]. *)
Definition get_price0 : M L Z :=
  '(reserve0, reserve1, _) <- get_reserves ;;
  if reserve0 =? 0 then throw InsufficientLiquidity else
  p <- lift (mul reserve1 (10 ^ 18)) ;;
  lift (div p reserve0).

(** [Pair::get_price1]: the price of [token1] in [token0], scaled by
    [10^18]. *)
Definition get_price1 : M L Z :=
  '(reserve0, reserve1, _) <- get_reserves ;;
  if reserve1 =? 0 then throw InsufficientLiquidity else
  p <- lift (mul reserve0 (10 ^ 18)) ;;
  lift (div p reserve1).

End Methods.

(** [Pair::init]: the storage of a freshly deployed pair; [l], [self] and
    [now] are the environment at deployment.  [lp_token.init] starts an empty
    LP ledger (spec: total supply zero before the first mint). *)
Definition init {L : Type} (token0 token1 factory : Z) (l : L) (self now : Z) : World L :=
  let (t0, t1) := if token0 <? token1 then (token0, token1) else (token1, token0) in
  {| token0 := t0; token1 := t1; factory := factory;
     reserve0 := 0; reserve1 := 0;
     block_timestamp_last := 0;
     price0_cumulative_last := 0; price1_cumulative_last := 0;
     k_last := 0; locked := false;
     lp_total_supply := 0; lp_balances := fun _ => 0;
     ledger := l; self_address := self; block_time := now |}.

(** Modelled from the spec: an LP-share transfer between holders through the
    embedded ledger ([Pair::transfer] / [Pair::transfer_from]). *)
Definition lp_move {L : Type} (from to amount : Z) (w : World L) : World L :=
  set_lp (lp_total_supply w)
         (fun a => lp_balances w a - (if a =? from then amount else 0)
                   + (if a =? to then amount else 0)) w.

(** The committed transitions of a pool between transactions: a successful
    entry-point call (a failed one leaves the state as it was, see [run]),
    a movement of LP shares, any activity on the asset ledgers outside the
    pool (deposits, other contracts), and the passing of time. *)
Inductive step {L : Type} `{TokenLedger L} (MINIMUM_LIQUIDITY : Z) : World L -> World L -> Prop :=
| step_mint w w' to v :
    run (mint MINIMUM_LIQUIDITY to) w = (Ok v, w') -> step MINIMUM_LIQUIDITY w w'
| step_burn w w' to v :
    run (burn to) w = (Ok v, w') -> step MINIMUM_LIQUIDITY w w'
| step_swap w w' a0 a1 to :
    run (swap a0 a1 to) w = (Ok tt, w') -> step MINIMUM_LIQUIDITY w w'
| step_skim w w' to :
    run (skim to) w = (Ok tt, w') -> step MINIMUM_LIQUIDITY w w'
| step_sync w w' :
    run sync w = (Ok tt, w') -> step MINIMUM_LIQUIDITY w w'
| step_lp_transfer w from to amount :
    0 <= amount <= lp_balances w from ->
    step MINIMUM_LIQUIDITY w (lp_move from to amount w)
| step_ledger w l :
    step MINIMUM_LIQUIDITY w (set_ledger l w)
| step_time w t :
    step MINIMUM_LIQUIDITY w (set_block_time t w).

(** The states a deployed pool can be in between transactions. *)
Inductive reachable {L : Type} `{TokenLedger L} (MINIMUM_LIQUIDITY : Z) (w0 : World L)
    : World L -> Prop :=
| reachable_start : reachable MINIMUM_LIQUIDITY w0 w0
| reachable_step w w' :
    reachable MINIMUM_LIQUIDITY w0 w -> step MINIMUM_LIQUIDITY w w' ->
    reachable MINIMUM_LIQUIDITY w0 w'.

End Pair.

(** ** A concrete asset ledger for runs on explicit inputs *)

Module Concrete.
Import Pair.

(** Balances per (asset, owner); a transfer moves [amount] when the sender
    holds it and reports failure otherwise. *)
Definition FnLedger := Z -> Z -> Z.

Definition fn_transfer (l : FnLedger) (token from to amount : Z) : bool * FnLedger :=
  if (amount <? 0) || (l token from <? amount) then (false, l)
  else (true, fun t o =>
          if t =? token then
            l t o - (if o =? from then amount else 0) + (if o =? to then amount else 0)
          else l t o).

#[export] Instance fn_ledger : TokenLedger FnLedger :=
  { balance_of l t o := l t o; transfer := fn_transfer }.

(** A pool at address 100 for assets 1 and 2, with the given pool balances
    of asset 1 and 2, reserves, LP supply and lock. *)
Definition pool (bal0 bal1 r0 r1 supply : Z) (lk : bool) : World FnLedger :=
  {| token0 := 1; token1 := 2; factory := 0;
     reserve0 := r0; reserve1 := r1;
     block_timestamp_last := 0;
     price0_cumulative_last := 0; price1_cumulative_last := 0;
     k_last := 0; locked := lk;
     lp_total_supply := supply; lp_balances := fun _ => 0;
     ledger := fun t o => if o =? 100 then (if t =? 1 then bal0 else if t =? 2 then bal1 else 0) else 0;
     self_address := 100; block_time := 7 |}.

(** A registry in which every pair of assets is served by pool 7 with
    reserves [(r_in, r_out)] (for assets 1 and 2, asset 1 being [token0]). *)
Definition chain_const (r_in r_out : Z) : Router.Chain :=
  Router.mkChain (fun _ _ => Some 7) (fun _ => (r_in, r_out)).

(** A registry for the path [1; 2; 3]: pair (1,2) is pool 3 with reserves
    [(1, 1002)], pair (2,3) is pool 5 with reserves [(997, 2)]. *)
Definition chain3 : Router.Chain :=
  Router.mkChain (fun a b => Some (a + b))
                 (fun p => if p =? 3 then (1, 1002) else (997, 2)).

(** An environment for router runs: block time, caller and registry are
    given; pools accept every swap and mint (one share), a burn pays
    [stub_burn], the LP [transfer_from] reports [stub_lp_ok], asset
    transfers succeed and no pair is ever created. *)
Record StubEnv := mkStub {
  stub_time : Z;
  stub_caller : Z;
  stub_chain : Router.Chain;
  stub_burn : Z * Z;
  stub_lp_ok : bool
}.

#[export] Instance stub_external : RouterOps.External StubEnv := {
  block_time_of := stub_time;
  caller_of := stub_caller;
  factory_get_pair e _ a b := Router.get_pair (stub_chain e) a b;
  factory_create_pair e _ _ _ := (Err PairExists, e);
  pair_get_reserves e p := let (r0, r1) := Router.pair_reserves (stub_chain e) p in (r0, r1, 0);
  pair_mint e _ _ := (Ok 1, e);
  pair_burn e _ _ := (Ok (stub_burn e), e);
  pair_swap e _ _ _ _ := (Ok tt, e);
  pair_transfer_from e _ _ _ _ := (stub_lp_ok e, e);
  token_transfer_from e _ _ _ _ := (true, e)
}.

(** A router with registry 9 at block time 10, called by account 60. *)
Definition stub_router (c : Router.Chain) (burn_out : Z * Z) (lp_ok : bool)
    : RouterOps.RWorld StubEnv :=
  RouterOps.init 9 8 (mkStub 10 60 c burn_out lp_ok).

End Concrete.

(** ** Frame and exit predicates on pool methods *)

Module Logic.
Import Pair.

Section Preds.
Context {L : Type}.

(** Whatever its outcome, [m] leaves the projection [f] of the state as it
    found it. *)
Definition preserves {X A} (f : World L -> X) (m : M L A) : Prop :=
  forall w, f (snd (m w)) = f w.

(** [m] never fails with the error [e]. *)
Definition never_fails_with {A} (e : DexError) (m : M L A) : Prop :=
  forall w, fst (m w) <> Err e.

(** Every successful outcome of [m] has the reentrancy lock released. *)
Definition ends_unlocked {A} (m : M L A) : Prop :=
  forall w a w', m w = (Ok a, w') -> locked w' = false.

End Preds.
End Logic.

(** * Proofs *)

Module LogicFacts.
Import SafeMath AmmMath Pair Logic.

Section Facts.
Context {L : Type}.

Lemma preserves_bind {X A B} (f : World L -> X) (m : M L A) (k : A -> M L B) :
  preserves f m -> (forall a, preserves f (k a)) -> preserves f (bind m k).
Proof.
  intros Hm Hk w. unfold bind. specialize (Hm w).
  destruct (m w) as [[a|e] w1]; simpl in *; [rewrite (Hk a w1) |]; exact Hm.
Qed.

Lemma never_fails_with_bind {A B} e (m : M L A) (k : A -> M L B) :
  never_fails_with e m -> (forall a, never_fails_with e (k a)) ->
  never_fails_with e (bind m k).
Proof.
  intros Hm Hk w. unfold bind. specialize (Hm w).
  destruct (m w) as [[a|e'] w1]; simpl in *; [apply Hk |].
  intro E; apply Hm; congruence.
Qed.

Lemma ends_unlocked_bind {A B} (m : M L A) (k : A -> M L B) :
  (forall a, ends_unlocked (k a)) -> ends_unlocked (bind m k).
Proof.
  intros Hk w v w'. unfold bind.
  destruct (m w) as [[a|e] w1]; [apply Hk | discriminate].
Qed.

Lemma ends_unlocked_unlock_ret {A} (v : A) : ends_unlocked (unlock ;;; ret v : M L A).
Proof. intros w a w' E. cbv in E. inversion E. reflexivity. Qed.

Lemma ends_unlocked_throw {A} e : ends_unlocked (throw e : M L A).
Proof. intros w a w' E. discriminate E. Qed.

End Facts.

(** Unfold a primitive of a pool method and decide its branches. *)
Ltac prim_leaf :=
  let w := fresh "w" in
  intro w;
  cbv [get_reserves get_token0 get_token1 get_self_address total_supply
       balance_of_lp lp_mint lp_burn store_k_last update_reserves
       get_token_balance safe_transfer lock unlock ret throw lift
       set_locked set_reserves set_k_last set_lp set_ledger set_block_time
       SafeMath.add SafeMath.sub SafeMath.mul SafeMath.div];
  repeat match goal with
         | |- context [match ?x with _ => _ end] => destruct x
         end;
  simpl; first [reflexivity | discriminate | congruence].

(** Walk down the binds and branches of a method, then close each primitive. *)
Ltac frame_tac :=
  repeat match goal with
         | |- preserves _ (bind _ _) => apply preserves_bind; [| intros ?]
         | |- never_fails_with _ (bind _ _) => apply never_fails_with_bind; [| intros ?]
         | |- preserves _ (match ?x with _ => _ end) => destruct x
         | |- never_fails_with _ (match ?x with _ => _ end) => destruct x
         end;
  try prim_leaf.

Ltac exit_tac :=
  repeat match goal with
         | |- ends_unlocked (bind unlock (fun _ => ret _)) => apply ends_unlocked_unlock_ret
         | |- ends_unlocked (throw _) => apply ends_unlocked_throw
         | |- ends_unlocked (bind _ _) => apply ends_unlocked_bind; intros ?
         | |- ends_unlocked (match ?x with _ => _ end) => destruct x
         end.

Section Methods.
Context {L : Type} `{TokenLedger L}.

Lemma swap_preserves_lp_supply a0 a1 to : preserves lp_total_supply (swap a0 a1 to : M L unit).
Proof. unfold swap, swap_send_out. frame_tac. Qed.

Lemma swap_preserves_lp_balances a0 a1 to : preserves lp_balances (swap a0 a1 to : M L unit).
Proof. unfold swap, swap_send_out. frame_tac. Qed.

(** No method writes the token identities after [init]. *)
Lemma mint_preserves_tokens MIN to :
  preserves token0 (mint MIN to : M L Z) /\ preserves token1 (mint MIN to : M L Z).
Proof. unfold mint. split; frame_tac. Qed.

Lemma burn_preserves_tokens to :
  preserves token0 (burn to : M L (Z * Z)) /\ preserves token1 (burn to : M L (Z * Z)).
Proof. unfold burn. split; frame_tac. Qed.

Lemma swap_preserves_tokens a0 a1 to :
  preserves token0 (swap a0 a1 to : M L unit) /\ preserves token1 (swap a0 a1 to : M L unit).
Proof. unfold swap, swap_send_out. split; frame_tac. Qed.

Lemma skim_preserves_tokens to :
  preserves token0 (skim to : M L unit) /\ preserves token1 (skim to : M L unit).
Proof. unfold skim. split; frame_tac. Qed.

Lemma sync_preserves_tokens :
  preserves token0 (sync : M L unit) /\ preserves token1 (sync : M L unit).
Proof. unfold sync. split; frame_tac. Qed.

(** [skim] and [sync] neither read nor write the lock. *)
Lemma skim_lock_free to :
  preserves locked (skim to : M L unit) /\ never_fails_with Locked (skim to : M L unit).
Proof. unfold skim. split; frame_tac. Qed.

Lemma sync_lock_free :
  preserves locked (sync : M L unit) /\ never_fails_with Locked (sync : M L unit).
Proof. unfold sync. split; frame_tac. Qed.

(** The successful exits of [mint], [burn] and [swap] release the lock. *)
Lemma mint_ends_unlocked MIN to : ends_unlocked (mint MIN to : M L Z).
Proof. unfold mint. exit_tac. Qed.

Lemma burn_ends_unlocked to : ends_unlocked (burn to : M L (Z * Z)).
Proof. unfold burn. exit_tac. Qed.

Lemma swap_ends_unlocked a0 a1 to : ends_unlocked (swap a0 a1 to : M L unit).
Proof. unfold swap. exit_tac. Qed.

End Methods.
End LogicFacts.

(** ** Pool: lock discipline, frames and token order *)

Module PoolSpec.
Import SafeMath AmmMath Pair Logic LogicFacts.

Section Reach.
Context {L : Type} `{TokenLedger L}.

Lemma run_fst {A} (m : M L A) w : fst (run m w) = fst (m w).
Proof. unfold run. destruct (m w) as [[a|e] w1]; reflexivity. Qed.

Lemma run_preserves {X A} (f : World L -> X) (m : M L A) w r w' :
  preserves f m -> run m w = (r, w') -> f w' = f w.
Proof.
  intros Hp E. unfold run in E. specialize (Hp w).
  destruct (m w) as [[a|e] w1]; inversion E; subst; auto.
Qed.

Lemma run_preserves_snd {X A} (f : World L -> X) (m : M L A) w :
  preserves f m -> f (snd (run m w)) = f w.
Proof. intros Hp. destruct (run m w) as [r w'] eqn:E. eapply run_preserves; eauto. Qed.

Lemma run_exit {A} (m : M L A) w r w' :
  ends_unlocked m -> locked w = false -> run m w = (r, w') ->
  locked w' = false /\ (forall e, r = Err e -> w' = w).
Proof.
  intros Hm Hw E. unfold run in E.
  destruct (m w) as [[a|e] w1] eqn:Em; inversion E; subst.
  - split; [eapply Hm; eauto | discriminate].
  - split; auto.
Qed.

Variable MINIMUM_LIQUIDITY : Z.

Lemma step_preserves_tokens w w' :
  step MINIMUM_LIQUIDITY w w' -> token0 w' = token0 w /\ token1 w' = token1 w.
Proof.
  destruct 1 as [w w' to v E|w w' to v E|w w' a0 a1 to E|w w' to E|w w' E|w from to amount _|w l|w t];
    try (split; reflexivity);
    [ destruct (mint_preserves_tokens MINIMUM_LIQUIDITY to) as [P0 P1]
    | destruct (burn_preserves_tokens to) as [P0 P1]
    | destruct (swap_preserves_tokens a0 a1 to) as [P0 P1]
    | destruct (skim_preserves_tokens to) as [P0 P1]
    | destruct sync_preserves_tokens as [P0 P1] ];
    split; eapply run_preserves; eauto.
Qed.

Lemma reachable_tokens w0 w :
  reachable MINIMUM_LIQUIDITY w0 w -> token0 w = token0 w0 /\ token1 w = token1 w0.
Proof.
  induction 1 as [|w w' _ IH Hs]; [split; reflexivity|].
  destruct (step_preserves_tokens w w' Hs). destruct IH. split; congruence.
Qed.

Lemma step_keeps_unlocked w w' :
  locked w = false -> step MINIMUM_LIQUIDITY w w' -> locked w' = false.
Proof.
  intros Hw.
  destruct 1 as [w w' to v E|w w' to v E|w w' a0 a1 to E|w w' to E|w w' E|w from to amount _|w l|w t];
    try exact Hw.
  - eapply (run_exit (mint MINIMUM_LIQUIDITY to)); eauto using mint_ends_unlocked.
  - eapply (run_exit (burn to)); eauto using burn_ends_unlocked.
  - eapply (run_exit (swap a0 a1 to)); eauto using swap_ends_unlocked.
  - rewrite <- Hw. eapply run_preserves; [apply skim_lock_free | exact E].
  - rewrite <- Hw. eapply run_preserves; [apply sync_lock_free | exact E].
Qed.

Lemma reachable_unlocked a b f (l : L) self now w :
  reachable MINIMUM_LIQUIDITY (init a b f l self now) w -> locked w = false.
Proof.
  induction 1 as [|w w' _ IH Hs].
  - unfold init. destruct (a <? b); reflexivity.
  - eapply step_keeps_unlocked; eauto.
Qed.

(** C2: in every state a deployed pool can be in between transactions, a
    call to [mint], [burn] or [swap] ends with the lock released, whatever its
    outcome, and a call that fails leaves the whole state (reserves, LP
    ledger, lock, everything) exactly as it was. *)
Theorem pool_calls_release_lock a b f (l : L) self now w :
  reachable MINIMUM_LIQUIDITY (init a b f l self now) w ->
  (forall to r w', run (mint MINIMUM_LIQUIDITY to) w = (r, w') ->
     locked w' = false /\ (forall e, r = Err e -> w' = w)) /\
  (forall to r w', run (burn to) w = (r, w') ->
     locked w' = false /\ (forall e, r = Err e -> w' = w)) /\
  (forall a0 a1 to r w', run (swap a0 a1 to) w = (r, w') ->
     locked w' = false /\ (forall e, r = Err e -> w' = w)).
Proof.
  intros Hr. pose proof (reachable_unlocked a b f l self now w Hr) as Hw.
  split; [|split]; intros; eapply run_exit; eauto using mint_ends_unlocked,
    burn_ends_unlocked, swap_ends_unlocked.
Qed.

(** C8 (as amended): [init] stores the smaller argument as [token0] and the
    larger as [token1] whatever their order, so [token0 < token1] when the
    arguments differ; no later transition of the pool changes them. *)
Theorem init_orders_tokens a b f (l : L) self now w :
  reachable MINIMUM_LIQUIDITY (init a b f l self now) w ->
  token0 w = Z.min a b /\ token1 w = Z.max a b /\ (a <> b -> token0 w < token1 w).
Proof.
  intros Hr. destruct (reachable_tokens _ _ Hr) as [E0 E1].
  rewrite E0, E1. unfold init.
  destruct (Z.ltb_spec a b); simpl; lia.
Qed.

End Reach.

Section Frames.
Context {L : Type} `{TokenLedger L}.

(** C9: [skim] and [sync] neither check nor take the reentrancy lock: from
    any state, also one where the lock is held, they never fail with
    [Locked] and leave the lock as it was, both as bodies run inside another
    call and as transactions of their own. *)
Theorem skim_sync_ignore_lock to (w : World L) :
  fst (skim to w) <> Err Locked /\ locked (snd (skim to w)) = locked w /\
  fst (run (skim to) w) <> Err Locked /\ locked (snd (run (skim to) w)) = locked w /\
  fst (sync w) <> Err Locked /\ locked (snd (sync w)) = locked w /\
  fst (run sync w) <> Err Locked /\ locked (snd (run sync w)) = locked w.
Proof.
  destruct (skim_lock_free to) as [Ps Ns]. destruct sync_lock_free as [Py Ny].
  rewrite !run_fst.
  repeat split; auto using run_preserves_snd.
Qed.

(** C10: a successful [swap] leaves the LP-share ledger alone: the total
    supply and every holder's balance are as before. *)
Theorem swap_keeps_lp_ledger a0 a1 to (w w' : World L) :
  run (swap a0 a1 to) w = (Ok tt, w') ->
  lp_total_supply w' = lp_total_supply w /\ (forall a, lp_balances w' a = lp_balances w a).
Proof.
  intros E. split.
  - eapply run_preserves; [apply swap_preserves_lp_supply | exact E].
  - assert (Eb : lp_balances w' = lp_balances w)
      by (eapply run_preserves; [apply swap_preserves_lp_balances | exact E]).
    intro a. rewrite Eb. reflexivity.
Qed.

End Frames.
End PoolSpec.

(** ** Pool: symbolic execution of [swap] and [mint] *)

Module PoolValues.
Import SafeMath AmmMath Pair Logic LogicFacts PoolSpec.

Lemma bind_ok_inv {L A B} (m : M L A) (k : A -> M L B) w v w' :
  bind m k w = (Ok v, w') -> exists a w1, m w = (Ok a, w1) /\ k a w1 = (Ok v, w').
Proof. unfold bind. destruct (m w) as [[a|e] w1]; [eauto | discriminate]. Qed.

Ltac bool_facts :=
  repeat match goal with
  | H : (_ <? _) = true |- _ => apply Z.ltb_lt in H
  | H : (_ <? _) = false |- _ => apply Z.ltb_ge in H
  | H : (_ <=? _) = true |- _ => apply Z.leb_le in H
  | H : (_ <=? _) = false |- _ => apply Z.leb_gt in H
  | H : (_ =? _) = true |- _ => apply Z.eqb_eq in H
  | H : (_ =? _) = false |- _ => apply Z.eqb_neq in H
  | H : _ && _ = true |- _ => apply andb_true_iff in H; destruct H
  | H : _ || _ = false |- _ => apply orb_false_iff in H; destruct H
  | H : _ && _ = false |- _ => apply andb_false_iff in H
  | H : _ || _ = true |- _ => apply orb_true_iff in H
  | H : negb _ = true |- _ => apply negb_true_iff in H
  | H : negb _ = false |- _ => apply negb_false_iff in H
  end.

Ltac sym :=
  repeat match goal with
  | E : bind _ _ _ = (Ok _, _) |- _ =>
      apply bind_ok_inv in E; destruct E as (? & ? & ? & E)
  | E : (if ?c then _ else _) _ = (Ok _, _) |- _ => destruct c eqn:?
  | E : (if ?c then _ else _) = (Ok _, _) |- _ => destruct c eqn:?
  | E : (if ?c then _ else _) = Ok _ |- _ => destruct c eqn:?
  | E : (if ?c then _ else _, _) = (Ok _, _) |- _ => destruct c eqn:?
  | E : (match ?x with _ => _ end) _ = (Ok _, _) |- _ => destruct x
  | E : (match ?x with _ => _ end) = Ok _ |- _ => destruct x eqn:?
  | E : (Err _, _) = (Ok _, _) |- _ => discriminate E
  | E : Err _ = Ok _ |- _ => discriminate E
  | E : (Ok _, _) = (Ok _, _) |- _ => injection E; clear E; intros; subst
  | E : Ok _ = Ok _ |- _ => injection E; clear E; intros; subst
  | E : (?r, ?s) = (Ok _, _) |- _ => injection E; clear E; intros; subst
  | E : _ = (Ok _, _) |- _ =>
      progress (cbv [get_reserves get_token0 get_token1 get_self_address total_supply
       balance_of_lp lp_mint lp_burn store_k_last update_reserves
       get_token_balance lock unlock ret throw lift sub mul add div] in E; cbn beta iota in E)
  | E : _ = Ok _ |- _ => progress (cbv [sub mul add div calculate_liquidity rbind] in E)
  end.


Lemma sub_ok a b : b <= a -> sub a b = Ok (a - b).
Proof. intros. unfold sub. destruct (Z.ltb_spec a b); [lia | reflexivity]. Qed.

Section Values.
Context {L : Type} `{TokenLedger L}.

Lemma run_ok_body {A} (m : M L A) w v w' : run m w = (Ok v, w') -> m w = (Ok v, w').
Proof. unfold run. destruct (m w) as [[a|e] w1]; congruence. Qed.

(** C1: across every successful [swap], with [amount_in] on each side the
    excess of the new balance over [reserve - amount_out] clamped at zero,
    the fee-adjusted product [(balance0*1000 - 3*amount0_in) *
    (balance1*1000 - 3*amount1_in)] of the new reserves is at least
    [reserve0*reserve1*1_000_000] of the old ones, and so is the plain
    product [reserve0*reserve1*1_000_000] of the new reserves. *)
Theorem swap_k_nondecreasing a0 a1 to (w w' : World L) :
  run (swap a0 a1 to) w = (Ok tt, w') ->
  (reserve0 w' * 1000 - 3 * Z.max 0 (reserve0 w' - (reserve0 w - a0))) *
  (reserve1 w' * 1000 - 3 * Z.max 0 (reserve1 w' - (reserve1 w - a1)))
    >= reserve0 w * reserve1 w * 1000000 /\
  reserve0 w' * reserve1 w' * 1000000 >= reserve0 w * reserve1 w * 1000000.
Proof.
  intros E. apply run_ok_body in E. unfold swap in E.
  sym; cbn [reserve0 reserve1 locked token0 token1 ledger self_address lp_total_supply
    lp_balances block_time set_locked set_reserves set_k_last set_lp set_ledger] in *;
  bool_facts.
  all: match goal with |- context [balance_of (ledger ?l) (token0 ?v) ?s] =>
         set (b0 := balance_of (ledger l) (token0 v) s) in * end.
  all: match goal with |- context [balance_of (ledger ?l) (token1 ?v) ?s] =>
         set (b1 := balance_of (ledger l) (token1 v) s) in * end.
  all: repeat (rewrite Z.max_r by lia || rewrite Z.max_l by lia).
  all: match goal with
       | |- ?A0 * ?A1 >= _ /\ _ =>
           assert (0 <= A0 <= b0 * 1000) by lia;
           assert (0 <= A1 <= b1 * 1000) by lia;
           assert (A0 * A1 <= b0 * 1000 * (b1 * 1000)) by (apply Z.mul_le_mono_nonneg; lia)
       end.
  all: split; lia.
Qed.

Variable MINIMUM_LIQUIDITY : Z.

(** C4: the first successful [mint] on a pool with no LP shares credits the
    depositor [floor(sqrt(amount0*amount1)) - MINIMUM_LIQUIDITY] shares and
    the pool's own address [MINIMUM_LIQUIDITY] shares, leaving a total supply
    of [floor(sqrt(amount0*amount1))], where [amount_i] is the pool's balance
    of asset [i] above its reserve; for [amount0 = 1000] and [amount1 = 4000]
    the depositor gets [2000 - MINIMUM_LIQUIDITY] and the supply is [2000]. *)
Theorem first_mint_shares to (w w' : World L) v :
  lp_total_supply w = 0 ->
  run (mint MINIMUM_LIQUIDITY to) w = (Ok v, w') ->
  let amount0 := balance_of (ledger w) (token0 w) (self_address w) - reserve0 w in
  let amount1 := balance_of (ledger w) (token1 w) (self_address w) - reserve1 w in
  v = Z.sqrt (amount0 * amount1) - MINIMUM_LIQUIDITY /\
  lp_total_supply w' = Z.sqrt (amount0 * amount1) /\
  (forall a, lp_balances w' a =
     lp_balances w a + (if a =? to then v else 0) + (if a =? self_address w then MINIMUM_LIQUIDITY else 0)) /\
  (amount0 = 1000 -> amount1 = 4000 -> v = 2000 - MINIMUM_LIQUIDITY /\ lp_total_supply w' = 2000).
Proof.
  intros Hs E. apply run_ok_body in E. unfold mint in E.
  sym; cbn [reserve0 reserve1 locked token0 token1 ledger self_address lp_total_supply
    lp_balances block_time set_locked set_reserves set_k_last set_lp set_ledger] in *;
  bool_facts.
  all: try (exfalso; lia).
  subst amount0 amount1.
  match goal with |- context [Z.sqrt ?p] => set (q := Z.sqrt p) end.
  split; [reflexivity |]. split; [lia |]. split.
  - intro a. destruct (a =? to), (a =? self_address w); lia.
  - intros A0 A1. subst q. rewrite A0, A1. change (Z.sqrt (1000 * 4000)) with 2000. lia.
Qed.

End Values.
End PoolValues.

(** ** Pool: the checks of [swap] in order *)

Module SwapChecks.
Import SafeMath AmmMath Pair Logic LogicFacts PoolSpec PoolValues.

Section Checks.
Context {L : Type} `{TokenLedger L}.

(** Evaluate [swap] up to the optimistic transfers, given the outcome of the
    three guards before them. *)
Ltac swap_prefix Hl C1 C2 C3 :=
  cbv [run swap bind lock get_reserves get_token0 get_token1 ret throw lift get_token_balance];
  rewrite Hl; cbn -[swap_send_out]; rewrite C1; cbn -[swap_send_out];
  rewrite C2; cbn -[swap_send_out]; rewrite C3; cbn -[swap_send_out].

Lemma swap_no_input a0 a1 to (w w2 : World L) :
  locked w = false -> ~ (a0 = 0 /\ a1 = 0) -> a0 < reserve0 w -> a1 < reserve1 w ->
  to <> token0 w -> to <> token1 w ->
  swap_send_out (token0 w) (token1 w) to a0 a1 (set_locked true w) = (Ok tt, w2) ->
  Z.max 0 (balance_of (ledger w2) (token0 w) (self_address w2) - (reserve0 w - a0)) = 0 ->
  Z.max 0 (balance_of (ledger w2) (token1 w) (self_address w2) - (reserve1 w - a1)) = 0 ->
  fst (run (swap a0 a1 to) w) = Err InsufficientInputAmount.
Proof.
  intros Hl Hnz H0 H1 Ht0 Ht1 Hs Hi0 Hi1.
  assert (C1 : (a0 =? 0) && (a1 =? 0) = false)
    by (destruct (Z.eqb_spec a0 0), (Z.eqb_spec a1 0); tauto).
  assert (C2 : (reserve0 w <=? a0) || (reserve1 w <=? a1) = false)
    by (apply orb_false_iff; split; apply Z.leb_gt; lia).
  assert (C3 : (to =? token0 w) || (to =? token1 w) = false)
    by (apply orb_false_iff; split; apply Z.eqb_neq; assumption).
  assert (C4 : (reserve0 w - a0 <? balance_of (ledger w2) (token0 w) (self_address w2)) = false)
    by (apply Z.ltb_ge; lia).
  assert (C5 : (reserve1 w - a1 <? balance_of (ledger w2) (token1 w) (self_address w2)) = false)
    by (apply Z.ltb_ge; lia).
  swap_prefix Hl C1 C2 C3.
  match goal with |- context [swap_send_out ?a ?b ?c ?d ?e ?v] =>
    replace (swap_send_out a b c d e v) with (@pair (result unit) (World L) (Ok tt) w2)
      by (rewrite <- Hs; reflexivity) end.
  rewrite !sub_ok by lia. rewrite C4. cbn. rewrite !sub_ok by lia. rewrite C5. reflexivity.
Qed.

Lemma swap_some_input a0 a1 to (w w2 : World L) :
  locked w = false -> ~ (a0 = 0 /\ a1 = 0) -> a0 < reserve0 w -> a1 < reserve1 w ->
  to <> token0 w -> to <> token1 w ->
  swap_send_out (token0 w) (token1 w) to a0 a1 (set_locked true w) = (Ok tt, w2) ->
  (Z.max 0 (balance_of (ledger w2) (token0 w) (self_address w2) - (reserve0 w - a0)) <> 0 \/
   Z.max 0 (balance_of (ledger w2) (token1 w) (self_address w2) - (reserve1 w - a1)) <> 0) ->
  fst (run (swap a0 a1 to) w) <> Err InsufficientInputAmount.
Proof.
  intros Hl Hnz H0 H1 Ht0 Ht1 Hs Hi.
  assert (C1 : (a0 =? 0) && (a1 =? 0) = false)
    by (destruct (Z.eqb_spec a0 0), (Z.eqb_spec a1 0); tauto).
  assert (C2 : (reserve0 w <=? a0) || (reserve1 w <=? a1) = false)
    by (apply orb_false_iff; split; apply Z.leb_gt; lia).
  assert (C3 : (to =? token0 w) || (to =? token1 w) = false)
    by (apply orb_false_iff; split; apply Z.eqb_neq; assumption).
  swap_prefix Hl C1 C2 C3.
  match goal with |- context [swap_send_out ?a ?b ?c ?d ?e ?v] =>
    replace (swap_send_out a b c d e v) with (@pair (result unit) (World L) (Ok tt) w2)
      by (rewrite <- Hs; reflexivity) end.
  set (b0 := balance_of (ledger w2) (token0 w) (self_address w2)) in *.
  set (b1 := balance_of (ledger w2) (token1 w) (self_address w2)) in *.
  rewrite !sub_ok by lia.
  destruct (Z.ltb_spec (reserve0 w - a0) b0); cbn; rewrite ?sub_ok by lia;
  destruct (Z.ltb_spec (reserve1 w - a1) b1); cbn; rewrite ?sub_ok by lia.
  all: cbv [sub mul store_k_last update_reserves unlock ret throw].
  all: repeat match goal with |- context [if ?b then _ else _] => destruct b eqn:? end;
       cbn; try discriminate; exfalso; bool_facts; destruct Hi; lia.
Qed.

(** C3: from any state with the lock released (every state between
    transactions, see C2), [swap amount0_out amount1_out to] fails with
    [InsufficientOutputAmount] when both outputs are zero; otherwise with
    [InsufficientLiquidity] when an output reaches its reserve; otherwise
    with [InvalidPair] when [to] is one of the two assets; otherwise, once the
    optimistic transfers have gone through, with [InsufficientInputAmount]
    exactly when both inferred inputs (the new balance's excess over
    [reserve - amount_out], clamped at zero) are zero. *)
Theorem swap_validation_order a0 a1 to (w : World L) :
  locked w = false ->
  (a0 = 0 /\ a1 = 0 -> fst (run (swap a0 a1 to) w) = Err InsufficientOutputAmount) /\
  (~ (a0 = 0 /\ a1 = 0) -> reserve0 w <= a0 \/ reserve1 w <= a1 ->
     fst (run (swap a0 a1 to) w) = Err InsufficientLiquidity) /\
  (~ (a0 = 0 /\ a1 = 0) -> a0 < reserve0 w -> a1 < reserve1 w ->
     to = token0 w \/ to = token1 w ->
     fst (run (swap a0 a1 to) w) = Err InvalidPair) /\
  (forall w2, ~ (a0 = 0 /\ a1 = 0) -> a0 < reserve0 w -> a1 < reserve1 w ->
     to <> token0 w -> to <> token1 w ->
     swap_send_out (token0 w) (token1 w) to a0 a1 (set_locked true w) = (Ok tt, w2) ->
     (fst (run (swap a0 a1 to) w) = Err InsufficientInputAmount <->
      Z.max 0 (balance_of (ledger w2) (token0 w) (self_address w2) - (reserve0 w - a0)) = 0 /\
      Z.max 0 (balance_of (ledger w2) (token1 w) (self_address w2) - (reserve1 w - a1)) = 0)).
Proof.
  intros Hl. split; [|split; [|split]].
  - intros [-> ->]. cbv [run swap bind lock throw]. rewrite Hl. reflexivity.
  - intros Hnz Hr.
    assert (C1 : (a0 =? 0) && (a1 =? 0) = false)
      by (destruct (Z.eqb_spec a0 0), (Z.eqb_spec a1 0); tauto).
    assert (C2 : (reserve0 w <=? a0) || (reserve1 w <=? a1) = true)
      by (apply orb_true_iff; destruct Hr; [left | right]; apply Z.leb_le; lia).
    cbv [run swap bind lock get_reserves throw]. rewrite Hl. cbn. rewrite C1. cbn.
    rewrite C2. reflexivity.
  - intros Hnz H0 H1 Ht.
    assert (C1 : (a0 =? 0) && (a1 =? 0) = false)
      by (destruct (Z.eqb_spec a0 0), (Z.eqb_spec a1 0); tauto).
    assert (C2 : (reserve0 w <=? a0) || (reserve1 w <=? a1) = false)
      by (apply orb_false_iff; split; apply Z.leb_gt; lia).
    assert (C3 : (to =? token0 w) || (to =? token1 w) = true)
      by (apply orb_true_iff; destruct Ht; [left | right]; apply Z.eqb_eq; assumption).
    cbv [run swap bind lock get_reserves get_token0 get_token1 throw]. rewrite Hl. cbn.
    rewrite C1. cbn. rewrite C2. cbn. rewrite C3. reflexivity.
  - intros w2 Hnz H0 H1 Ht0 Ht1 Hs. split.
    + intros E. destruct (Z.eq_dec (Z.max 0 (balance_of (ledger w2) (token0 w) (self_address w2)
                                          - (reserve0 w - a0))) 0),
                 (Z.eq_dec (Z.max 0 (balance_of (ledger w2) (token1 w) (self_address w2)
                                          - (reserve1 w - a1))) 0);
        auto; exfalso; refine (swap_some_input a0 a1 to w w2 _ _ _ _ _ _ Hs _ E); auto.
    + intros [Hi0 Hi1]. apply (swap_no_input a0 a1 to w w2); auto.
Qed.

End Checks.
End SwapChecks.

(** ** Router quotes *)

Module RouterSpec.
Import SafeMath AmmMath Router PoolValues.

Lemma mul_ok a b : a * b <= U256_MAX -> mul a b = Ok (a * b).
Proof. intros Hb. unfold mul. destruct (Z.ltb_spec U256_MAX (a * b)); [lia | reflexivity]. Qed.

Lemma add_ok a b : a + b <= U256_MAX -> add a b = Ok (a + b).
Proof. intros Hb. unfold add. destruct (Z.ltb_spec U256_MAX (a + b)); [lia | reflexivity]. Qed.

Lemma div_ok a b : b <> 0 -> div a b = Ok (a / b).
Proof. intros Hb. unfold div. destruct (Z.eqb_spec b 0); [lia | reflexivity]. Qed.

(** A successful [get_amount_out] computes the fee formula. *)
Lemma get_amount_out_ok_inv ai ri ro b :
  get_amount_out ai ri ro = Ok b ->
  ri <> 0 /\ ro <> 0 /\ b = ai * 997 * ro / (ri * 1000 + ai * 997).
Proof.
  unfold get_amount_out, rbind, mul, add, div.
  repeat match goal with |- context [if ?c then _ else _] => destruct c eqn:? end;
    intros E; try discriminate; injection E as <-; bool_facts; repeat split; lia.
Qed.

(** A successful [get_amount_in] computes the rounded-up inverse formula. *)
Lemma get_amount_in_ok_inv ao ri ro a :
  get_amount_in ao ri ro = Ok a ->
  ao < ro /\ a = ri * ao * 1000 / ((ro - ao) * 997) + 1.
Proof.
  unfold get_amount_in, rbind, mul, add, sub, div.
  repeat match goal with |- context [if ?c then _ else _] => destruct c eqn:? end;
    intros E; try discriminate; injection E as <-; bool_facts; split; lia.
Qed.

(** C5 (as amended): on reserves and an input in the [U256] range,
    [get_amount_out amount_in reserve_in reserve_out] fails with
    [InsufficientLiquidity] when a reserve is zero; with both reserves nonzero
    it returns [floor(amount_in*997*reserve_out / (reserve_in*1000 +
    amount_in*997))] when the numerator and the denominator fit in [U256], and
    fails with [Overflow] when one of them does not; and
    [get_amount_out 100 1000 1000 = 90]. *)
Theorem get_amount_out_formula ai ri ro :
  0 <= ai -> 0 <= ri -> 0 <= ro ->
  (ri = 0 \/ ro = 0 -> get_amount_out ai ri ro = Err InsufficientLiquidity) /\
  (ri <> 0 -> ro <> 0 -> ai * 997 * ro <= U256_MAX -> ri * 1000 + ai * 997 <= U256_MAX ->
     get_amount_out ai ri ro = Ok (ai * 997 * ro / (ri * 1000 + ai * 997))) /\
  (ri <> 0 -> ro <> 0 -> U256_MAX < ai * 997 * ro \/ U256_MAX < ri * 1000 + ai * 997 ->
     get_amount_out ai ri ro = Err Overflow) /\
  get_amount_out 100 1000 1000 = Ok 90.
Proof.
  intros Ha Hri Hro. split; [|split; [|split]].
  - intros Hz. unfold get_amount_out.
    destruct Hz as [-> | ->]; rewrite ?Z.eqb_refl, ?orb_true_r; reflexivity.
  - intros Hri0 Hro0 Hn Hd. unfold get_amount_out.
    replace ((ri =? 0) || (ro =? 0)) with false
      by (symmetry; apply orb_false_iff; split; apply Z.eqb_neq; assumption).
    rewrite (mul_ok ai 997) by nia. cbn [rbind].
    rewrite (mul_ok (ai * 997) ro) by lia. cbn [rbind].
    rewrite (mul_ok ri 1000) by lia. cbn [rbind].
    rewrite (add_ok (ri * 1000) (ai * 997)) by lia. cbn [rbind].
    apply div_ok. lia.
  - intros Hri0 Hro0 Hov. unfold get_amount_out.
    replace ((ri =? 0) || (ro =? 0)) with false
      by (symmetry; apply orb_false_iff; split; apply Z.eqb_neq; assumption).
    unfold rbind, mul, add, div.
    repeat match goal with |- context [if ?c then _ else _] => destruct c eqn:? end;
      try reflexivity; bool_facts; exfalso; nia.
  - reflexivity.
Qed.

(** C6 (as amended): [calculate_liquidity_amounts], which fixes the amounts
    [add_liquidity] deposits, returns the desired amounts unchecked when the
    reserve lookup fails or a reserve is zero; otherwise, with
    [b_opt = quote a_desired reserve_a reserve_b], when [b_opt <= b_desired]
    it fails with [InsufficientAmount] exactly when [b_opt < b_min] and
    returns [(a_desired, b_opt)] otherwise ([a_min] is not consulted); when
    [b_opt > b_desired], with [a_opt = quote b_desired reserve_b reserve_a],
    it fails with [InsufficientAmount] exactly when [a_opt > a_desired] or
    [a_opt < a_min] and returns [(a_opt, b_desired)] otherwise ([b_min] is not
    consulted).  So on nonzero reserves, when [a_min <= a_desired] and
    [b_min <= b_desired], every result respects both minimums and both
    desired amounts. *)
Theorem calculate_liquidity_amounts_branches c ta tb ad bd amin bmin :
  ((forall ra rb, get_reserves c ta tb = Ok (ra, rb) -> ra = 0 \/ rb = 0) ->
     calculate_liquidity_amounts c ta tb ad bd amin bmin = Ok (ad, bd)) /\
  (forall ra rb bopt, get_reserves c ta tb = Ok (ra, rb) -> ra <> 0 -> rb <> 0 ->
     quote ad ra rb = Ok bopt -> bopt <= bd ->
     calculate_liquidity_amounts c ta tb ad bd amin bmin =
       if bopt <? bmin then Err InsufficientAmount else Ok (ad, bopt)) /\
  (forall ra rb bopt aopt, get_reserves c ta tb = Ok (ra, rb) -> ra <> 0 -> rb <> 0 ->
     quote ad ra rb = Ok bopt -> bd < bopt -> quote bd rb ra = Ok aopt ->
     calculate_liquidity_amounts c ta tb ad bd amin bmin =
       if (ad <? aopt) || (aopt <? amin) then Err InsufficientAmount else Ok (aopt, bd)) /\
  (forall ra rb a b, get_reserves c ta tb = Ok (ra, rb) -> ra <> 0 -> rb <> 0 ->
     amin <= ad -> bmin <= bd ->
     calculate_liquidity_amounts c ta tb ad bd amin bmin = Ok (a, b) ->
     amin <= a <= ad /\ bmin <= b <= bd).
Proof.
  unfold calculate_liquidity_amounts.
  split; [|split; [|split]].
  - intros Hz. destruct (get_reserves c ta tb) as [[ra rb]|e]; [|reflexivity].
    destruct (Hz ra rb eq_refl) as [-> | ->]; cbn; rewrite ?andb_false_r; reflexivity.
  - intros ra rb bopt Hr Ha Hb Hq Hle. rewrite Hr.
    rewrite (proj2 (Z.eqb_neq ra 0) Ha), (proj2 (Z.eqb_neq rb 0) Hb). cbn.
    rewrite Hq. cbn. rewrite (proj2 (Z.leb_le bopt bd) Hle). reflexivity.
  - intros ra rb bopt aopt Hr Ha Hb Hq Hlt Hq'. rewrite Hr.
    rewrite (proj2 (Z.eqb_neq ra 0) Ha), (proj2 (Z.eqb_neq rb 0) Hb). cbn.
    rewrite Hq. cbn. rewrite (proj2 (Z.leb_gt bopt bd) Hlt). rewrite Hq'. cbn.
    destruct (ad <? aopt); reflexivity.
  - intros ra rb a b Hr Ha Hb Hamin Hbmin. rewrite Hr.
    rewrite (proj2 (Z.eqb_neq ra 0) Ha), (proj2 (Z.eqb_neq rb 0) Hb). cbn.
    destruct (quote ad ra rb) as [bopt|e]; cbn; [|discriminate].
    destruct (Z.leb_spec bopt bd).
    + destruct (Z.ltb_spec bopt bmin); [discriminate|].
      intros E; injection E as <- <-; lia.
    + destruct (quote bd rb ra) as [aopt|e]; cbn; [|discriminate].
      destruct (Z.ltb_spec ad aopt); [discriminate|].
      destruct (Z.ltb_spec aopt amin); [discriminate|].
      intros E; injection E as <- <-; lia.
Qed.

(** C7 (as amended): on a two-asset path [[x; y]] whose pool has reserves in
    the [U256] range, quoting an input [a >= 0] forward with
    [get_amounts_out] and its output back with [get_amounts_in] gives back at
    most [a + 1]: the [+ 1] of [get_amount_in]'s rounding up is the only
    excess. *)
Theorem round_trip_one_hop c x y a ri ro :
  0 <= a -> 0 <= ri -> 0 <= ro -> get_reserves c x y = Ok (ri, ro) ->
  forall outs, get_amounts_out c a [x; y] = Ok outs ->
  forall ins, get_amounts_in c (last outs 0) [x; y] = Ok ins ->
  hd 0 ins <= a + 1.
Proof.
  intros Ha Hri Hro Hr outs Ho ins Hi.
  unfold get_amounts_out in Ho. cbn in Ho. rewrite Hr in Ho. cbn in Ho.
  destruct (get_amount_out a ri ro) as [b|e] eqn:Eo; cbn in Ho; [|discriminate].
  injection Ho as <-. cbn [last] in Hi.
  unfold get_amounts_in in Hi. cbn in Hi. rewrite Hr in Hi. cbn in Hi.
  destruct (get_amount_in b ri ro) as [a'|e] eqn:Ei; cbn in Hi; [|discriminate].
  injection Hi as <-. cbn [hd].
  apply get_amount_out_ok_inv in Eo as (Hri0 & Hro0 & Hb).
  apply get_amount_in_ok_inv in Ei as (Hlt & ->).
  assert (Hd : 0 < ri * 1000 + a * 997) by lia.
  assert (Hmul : (ri * 1000 + a * 997) * b <= a * 997 * ro)
    by (rewrite Hb; apply Z.mul_div_le; lia).
  assert (Hq : ri * b * 1000 / ((ro - b) * 997) <= a).
  { apply Z.div_le_upper_bound; [lia | nia]. }
  lia.
Qed.

End RouterSpec.

(** ** Concrete runs *)

Module Examples.
Import SafeMath AmmMath Router Pair Concrete PoolSpec PoolValues SwapChecks RouterSpec.

Definition no_balances : FnLedger := fun _ _ => 0.

(** A pool for assets 1 and 2 fresh from [init]. *)
Definition fresh_pool : World FnLedger := init 2 1 0 no_balances 100 0.

(** C1, C10 at a swap of 90 units of asset 2 out against 100 units of asset 1
    in, on reserves [(1000, 1000)]. *)
Lemma swap_k_nondecreasing_witness :
  run (swap 0 90 50) (pool 1100 1000 1000 1000 1 false)
    = (Ok tt, snd (run (swap 0 90 50) (pool 1100 1000 1000 1000 1 false))) /\
  reserve0 (snd (run (swap 0 90 50) (pool 1100 1000 1000 1000 1 false))) *
  reserve1 (snd (run (swap 0 90 50) (pool 1100 1000 1000 1000 1 false))) * 1000000
    >= 1000 * 1000 * 1000000.
Proof.
  assert (E : run (swap 0 90 50) (pool 1100 1000 1000 1000 1 false)
    = (Ok tt, snd (run (swap 0 90 50) (pool 1100 1000 1000 1000 1 false))))
    by (vm_compute; reflexivity).
  split; [exact E|].
  exact (proj2 (swap_k_nondecreasing 0 90 50 _ _ E)).
Defined.

Lemma pool_calls_release_lock_witness :
  reachable 1000 fresh_pool fresh_pool /\
  locked (snd (run (mint 1000 50) fresh_pool)) = false.
Proof.
  assert (R : reachable 1000 fresh_pool fresh_pool) by constructor.
  split; [exact R|].
  destruct (pool_calls_release_lock 1000 2 1 0 no_balances 100 0 fresh_pool R) as [Hm _].
  exact (proj1 (Hm 50 _ _ (surjective_pairing _))).
Defined.

Lemma swap_validation_order_witness :
  locked (pool 1100 1000 1000 1000 1 false) = false /\
  fst (run (swap 0 0 50) (pool 1100 1000 1000 1000 1 false)) = Err InsufficientOutputAmount.
Proof.
  split; [reflexivity|].
  apply (proj1 (swap_validation_order 0 0 50 (pool 1100 1000 1000 1000 1 false) eq_refl)).
  split; reflexivity.
Defined.

Lemma first_mint_shares_witness :
  lp_total_supply (pool 1000 4000 0 0 0 false) = 0 /\
  run (mint 1000 50) (pool 1000 4000 0 0 0 false)
    = (Ok 1000, snd (run (mint 1000 50) (pool 1000 4000 0 0 0 false))) /\
  lp_total_supply (snd (run (mint 1000 50) (pool 1000 4000 0 0 0 false))) = 2000.
Proof.
  assert (E : run (mint 1000 50) (pool 1000 4000 0 0 0 false)
    = (Ok 1000, snd (run (mint 1000 50) (pool 1000 4000 0 0 0 false))))
    by (vm_compute; reflexivity).
  split; [reflexivity|]. split; [exact E|].
  pose proof (first_mint_shares 1000 50 (pool 1000 4000 0 0 0 false) _ 1000 eq_refl E) as T.
  cbv zeta in T. destruct T as (_ & _ & _ & T).
  apply T; vm_compute; reflexivity.
Defined.

Lemma get_amount_out_formula_witness :
  get_amount_out 100 1000 1000 = Ok (100 * 997 * 1000 / (1000 * 1000 + 100 * 997)).
Proof.
  destruct (get_amount_out_formula 100 1000 1000 ltac:(lia) ltac:(lia) ltac:(lia))
    as (_ & T & _).
  apply T; vm_compute; congruence.
Defined.

(** The checked multiplication [amount_in * 997] overflows on a large input:
    [get_amount_out] fails where the formula has a value. *)
Lemma get_amount_out_overflow_cex :
  get_amount_out U256_MAX 1 1 = Err Overflow /\
  get_amount_out U256_MAX 1 1 <> Ok (U256_MAX * 997 * 1 / (1 * 1000 + U256_MAX * 997)).
Proof. split; vm_compute; [reflexivity | discriminate]. Qed.

Lemma calculate_liquidity_amounts_branches_witness :
  calculate_liquidity_amounts (chain_const 100 100) 1 2 10 10 20 0 =
    (if 10 <? 0 then Err InsufficientAmount else Ok (10, 10)).
Proof.
  destruct (calculate_liquidity_amounts_branches (chain_const 100 100) 1 2 10 10 20 0)
    as (_ & T & _).
  apply (T 100 100 10); vm_compute; congruence.
Defined.

(** On reserves [(100, 100)], desired amounts [(10, 10)] and minimums
    [(20, 0)], the result [(10, 10)] is accepted although [10 < 20]. *)
Lemma liquidity_amounts_min_cex :
  Router.get_reserves (chain_const 100 100) 1 2 = Ok (100, 100) /\
  calculate_liquidity_amounts (chain_const 100 100) 1 2 10 10 20 0 = Ok (10, 10) /\
  10 < 20.
Proof. vm_compute. repeat split; reflexivity. Qed.

Lemma round_trip_one_hop_witness :
  get_amounts_out (chain_const 997 2) 1000 [1; 2] = Ok [1000; 1] /\
  get_amounts_in (chain_const 997 2) (last [1000; 1] 0) [1; 2] = Ok [1001; 1] /\
  hd 0 [1001; 1] <= 1000 + 1.
Proof.
  assert (Ho : get_amounts_out (chain_const 997 2) 1000 [1; 2] = Ok [1000; 1])
    by (vm_compute; reflexivity).
  assert (Hi : get_amounts_in (chain_const 997 2) (last [1000; 1] 0) [1; 2] = Ok [1001; 1])
    by (vm_compute; reflexivity).
  split; [exact Ho|]. split; [exact Hi|].
  exact (round_trip_one_hop (chain_const 997 2) 1 2 1000 997 2
           ltac:(lia) ltac:(lia) ltac:(lia) eq_refl _ Ho _ Hi).
Defined.

(** Round trips that come back above the input: by one unit on a single hop,
    and by 405 units over two hops, where the extra unit of the second hop's
    rounding is repriced by the first. *)
Lemma round_trip_cex :
  get_amounts_out (chain_const 997 2) 1000 [1; 2] = Ok [1000; 1] /\
  get_amounts_in (chain_const 997 2) 1 [1; 2] = Ok [1001; 1] /\
  1000 < 1001 /\
  get_amounts_out chain3 600 [1; 2; 3] = Ok [600; 1000; 1] /\
  get_amounts_in chain3 1 [1; 2; 3] = Ok [1005; 1001; 1] /\
  600 + 1 < 1005.
Proof. vm_compute. repeat split; reflexivity. Qed.

Lemma init_orders_tokens_witness :
  reachable 1000 fresh_pool fresh_pool /\ token0 fresh_pool = 1 /\ token1 fresh_pool = 2.
Proof.
  assert (R : reachable 1000 fresh_pool fresh_pool) by constructor.
  split; [exact R|].
  destruct (init_orders_tokens 1000 2 1 0 no_balances 100 0 fresh_pool R) as (T0 & T1 & _).
  split; [exact T0 | exact T1].
Defined.

(** [init] with the same asset twice stores it as both [token0] and
    [token1]. *)
Lemma init_identical_cex :
  token0 (init 5 5 0 no_balances 100 0) = 5 /\ token1 (init 5 5 0 no_balances 100 0) = 5 /\
  ~ (token0 (init 5 5 0 no_balances 100 0) < token1 (init 5 5 0 no_balances 100 0)).
Proof. vm_compute. split; [reflexivity | split; [reflexivity | discriminate]]. Qed.

Lemma skim_sync_ignore_lock_witness :
  fst (skim 50 (pool 1100 1000 1000 1000 1 true)) <> Err Locked /\
  locked (snd (sync (pool 1100 1000 1000 1000 1 true))) = true.
Proof.
  destruct (skim_sync_ignore_lock 50 (pool 1100 1000 1000 1000 1 true))
    as (T1 & _ & _ & _ & _ & T6 & _).
  split; [exact T1 | exact T6].
Defined.

Lemma swap_keeps_lp_ledger_witness :
  run (swap 0 90 50) (pool 1100 1000 1000 1000 1 false)
    = (Ok tt, snd (run (swap 0 90 50) (pool 1100 1000 1000 1000 1 false))) /\
  lp_total_supply (snd (run (swap 0 90 50) (pool 1100 1000 1000 1000 1 false))) = 1.
Proof.
  assert (E : run (swap 0 90 50) (pool 1100 1000 1000 1000 1 false)
    = (Ok tt, snd (run (swap 0 90 50) (pool 1100 1000 1000 1000 1 false))))
    by (vm_compute; reflexivity).
  split; [exact E|].
  exact (proj1 (swap_keeps_lp_ledger 0 90 50 _ _ E)).
Defined.

End Examples.

(** ** Pool: further properties of the entry points *)

Module PoolExtras.
Import SafeMath AmmMath Pair Logic LogicFacts PoolSpec PoolValues.

Section Guards.
Context {L : Type} `{TokenLedger L}.

(** A call to [mint], [burn] or [swap] made while the lock is held (a
    reentrant call from a token callback) fails with [Locked] before reading
    or writing anything. *)
Theorem locked_pool_rejects_calls MIN to a0 a1 (w : World L) :
  locked w = true ->
  mint MIN to w = (Err Locked, w) /\ burn to w = (Err Locked, w) /\
  swap a0 a1 to w = (Err Locked, w).
Proof.
  intros Hl.
  split; [|split]; [unfold mint | unfold burn | unfold swap];
    unfold bind at 1, lock; rewrite Hl; reflexivity.
Qed.

Lemma frame_ledger {A} (m : M L A) :
  preserves token0 m -> preserves token1 m -> preserves factory m ->
  preserves reserve0 m -> preserves reserve1 m -> preserves block_timestamp_last m ->
  preserves price0_cumulative_last m -> preserves price1_cumulative_last m ->
  preserves k_last m -> preserves locked m -> preserves lp_total_supply m ->
  preserves lp_balances m -> preserves self_address m -> preserves block_time m ->
  forall w, snd (m w) = set_ledger (ledger (snd (m w))) w.
Proof.
  intros P1 P2 P3 P4 P5 P6 P7 P8 P9 P10 P11 P12 P13 P14 w.
  specialize (P1 w); specialize (P2 w); specialize (P3 w); specialize (P4 w);
  specialize (P5 w); specialize (P6 w); specialize (P7 w); specialize (P8 w);
  specialize (P9 w); specialize (P10 w); specialize (P11 w); specialize (P12 w);
  specialize (P13 w); specialize (P14 w).
  revert P1 P2 P3 P4 P5 P6 P7 P8 P9 P10 P11 P12 P13 P14.
  destruct (snd (m w)), w. cbn. intros. subst. reflexivity.
Qed.

Lemma skim_frame to (w : World L) :
  snd (skim to w) = set_ledger (ledger (snd (skim to w))) w.
Proof. apply frame_ledger; unfold skim; frame_tac. Qed.

(** [skim] changes nothing but the asset ledger, whatever its outcome
    (reserves, timestamps, LP ledger, [k_last], lock and tokens are as
    before), and when neither balance exceeds its reserve it succeeds
    without any transfer. *)
Theorem skim_only_moves_assets to (w : World L) :
  snd (skim to w) = set_ledger (ledger (snd (skim to w))) w /\
  (balance_of (ledger w) (token0 w) (self_address w) <= reserve0 w ->
   balance_of (ledger w) (token1 w) (self_address w) <= reserve1 w ->
   skim to w = (Ok tt, w)).
Proof.
  split; [apply skim_frame|]. intros B0 B1.
  cbv [skim bind get_token0 get_token1 get_reserves get_token_balance lift ret].
  rewrite (proj2 (Z.ltb_ge _ _) B0), (proj2 (Z.ltb_ge _ _) B1). reflexivity.
Qed.

(** [get_price0] fails with [InsufficientLiquidity] on an empty [reserve0]
    and otherwise returns [floor(reserve1 * 10^18 / reserve0)] when the
    product fits in [U256] ([Overflow] when it does not); symmetrically for
    [get_price1].  Neither changes the state, and on nonnegative reserves
    the two prices multiply to at most [10^36]. *)
Theorem pool_prices (w : World L) :
  snd (get_price0 w) = w /\ snd (get_price1 w) = w /\
  (reserve0 w = 0 -> fst (get_price0 w) = Err InsufficientLiquidity) /\
  (reserve1 w = 0 -> fst (get_price1 w) = Err InsufficientLiquidity) /\
  (reserve0 w <> 0 ->
     fst (get_price0 w) = if U256_MAX <? reserve1 w * 10 ^ 18 then Err Overflow
                          else Ok (reserve1 w * 10 ^ 18 / reserve0 w)) /\
  (reserve1 w <> 0 ->
     fst (get_price1 w) = if U256_MAX <? reserve0 w * 10 ^ 18 then Err Overflow
                          else Ok (reserve0 w * 10 ^ 18 / reserve1 w)) /\
  (forall p0 p1, 0 <= reserve0 w -> 0 <= reserve1 w ->
     fst (get_price0 w) = Ok p0 -> fst (get_price1 w) = Ok p1 -> p0 * p1 <= 10 ^ 36).
Proof.
  cbv [get_price0 get_price1 bind get_reserves throw lift mul div].
  cbn [fst snd].
  split; [|split; [|split; [|split; [|split; [|split]]]]].
  - destruct (reserve0 w =? 0), (U256_MAX <? reserve1 w * 10 ^ 18); reflexivity.
  - destruct (reserve1 w =? 0), (U256_MAX <? reserve0 w * 10 ^ 18); reflexivity.
  - intros ->. reflexivity.
  - intros ->. reflexivity.
  - intros Hr. rewrite (proj2 (Z.eqb_neq _ _) Hr).
    destruct (U256_MAX <? reserve1 w * 10 ^ 18); reflexivity.
  - intros Hr. rewrite (proj2 (Z.eqb_neq _ _) Hr).
    destruct (U256_MAX <? reserve0 w * 10 ^ 18); reflexivity.
  - intros p0 p1 H0 H1.
    destruct (Z.eqb_spec (reserve0 w) 0); [discriminate|].
    destruct (U256_MAX <? reserve1 w * 10 ^ 18); [discriminate|].
    intros E0. injection E0 as <-.
    destruct (Z.eqb_spec (reserve1 w) 0); [discriminate|].
    destruct (U256_MAX <? reserve0 w * 10 ^ 18); [discriminate|].
    intros E1. injection E1 as <-.
    set (r0 := reserve0 w) in *. set (r1 := reserve1 w) in *.
    set (e := 10 ^ 18).
    assert (He : 0 < e) by (subst e; lia).
    assert (A : r0 * (r1 * e / r0) <= r1 * e) by (apply Z.mul_div_le; lia).
    assert (B : r1 * (r0 * e / r1) <= r0 * e) by (apply Z.mul_div_le; lia).
    assert (A0 : 0 <= r1 * e / r0) by (apply Z.div_pos; nia).
    assert (B0 : 0 <= r0 * e / r1) by (apply Z.div_pos; nia).
    replace (10 ^ 36) with (e * e) by (subst e; reflexivity).
    assert (C : r0 * r1 * ((r1 * e / r0) * (r0 * e / r1)) <= r0 * r1 * (e * e)) by nia.
    apply Z.mul_le_mono_pos_l in C; [exact C | nia].
Qed.

End Guards.

Section Records.
Context {L : Type} `{TokenLedger L}.

(** The optimistic transfers of [swap] touch only the ledger. *)
Lemma swap_send_out_frame t0 t1 to a0 a1 :
  preserves self_address (swap_send_out t0 t1 to a0 a1 : M L unit) /\
  preserves token0 (swap_send_out t0 t1 to a0 a1 : M L unit) /\
  preserves token1 (swap_send_out t0 t1 to a0 a1 : M L unit) /\
  preserves block_time (swap_send_out t0 t1 to a0 a1 : M L unit) /\
  preserves k_last (swap_send_out t0 t1 to a0 a1 : M L unit).
Proof. unfold swap_send_out. repeat split; frame_tac. Qed.

(** After a successful [swap] the stored reserves are the pool's token
    balances read after the transfers, the reserve timestamp is the block
    time and [k_last] is left as it was. *)
Theorem swap_records_balances a0 a1 to (w w' : World L) :
  run (swap a0 a1 to) w = (Ok tt, w') ->
  reserve0 w' = balance_of (ledger w') (token0 w') (self_address w') /\
  reserve1 w' = balance_of (ledger w') (token1 w') (self_address w') /\
  block_timestamp_last w' = block_time w /\ k_last w' = k_last w.
Proof.
  intros E. apply run_ok_body in E. unfold swap in E.
  sym; cbn [reserve0 reserve1 locked token0 token1 ledger self_address lp_total_supply
    lp_balances block_time k_last block_timestamp_last set_locked set_reserves set_k_last set_lp set_ledger] in *.
  all: match goal with Hs : swap_send_out ?t0 ?t1 ?tt ?x ?y ?v = (Ok _, ?v2) |- _ =>
         destruct (swap_send_out_frame t0 t1 tt x y) as (F1 & F2 & F3 & F4 & F5);
         unfold preserves in F1, F2, F3, F4, F5;
         specialize (F1 v); specialize (F2 v); specialize (F3 v);
         specialize (F4 v); specialize (F5 v); rewrite Hs in F1, F2, F3, F4, F5;
         cbn in F1, F2, F3, F4, F5 end.
  all: rewrite ?F1, ?F2, ?F3, ?F4, ?F5; repeat split; reflexivity.
Qed.

(** What a successful [mint] leaves behind. *)
Lemma mint_ok_facts MIN to (w w' : World L) v :
  run (mint MIN to) w = (Ok v, w') ->
  v <> 0 /\ ledger w' = ledger w /\
  reserve0 w' = balance_of (ledger w') (token0 w') (self_address w') /\
  reserve1 w' = balance_of (ledger w') (token1 w') (self_address w') /\
  block_timestamp_last w' = block_time w /\ k_last w' = reserve0 w' * reserve1 w'.
Proof.
  intros E. apply run_ok_body in E. unfold mint in E.
  sym; cbn [reserve0 reserve1 locked token0 token1 ledger self_address lp_total_supply
    lp_balances block_time k_last block_timestamp_last set_locked set_reserves set_k_last set_lp set_ledger] in *;
  bool_facts.
  all: repeat split; auto.
Qed.

(** A successful [mint] mints a nonzero amount, moves no token, stores the
    pool's balances as reserves with the block time, and sets [k_last] to
    the product of the new reserves. *)
Theorem mint_records_balances MIN to (w w' : World L) v :
  run (mint MIN to) w = (Ok v, w') ->
  v <> 0 /\ ledger w' = ledger w /\
  reserve0 w' = balance_of (ledger w') (token0 w') (self_address w') /\
  reserve1 w' = balance_of (ledger w') (token1 w') (self_address w') /\
  block_timestamp_last w' = block_time w /\ k_last w' = reserve0 w' * reserve1 w'.
Proof. apply mint_ok_facts. Qed.

(** Once LP tokens exist, a successful [mint] issues
    min(amount0 * supply / reserve0, amount1 * supply / reserve1) LP tokens,
    amountX being the pool's balance above its reserve, all of them to [to]:
    the supply and the balance of [to] grow by that amount, no other balance
    changes. *)
Theorem later_mint_shares MIN to (w w' : World L) v :
  lp_total_supply w <> 0 ->
  run (mint MIN to) w = (Ok v, w') ->
  let amount0 := balance_of (ledger w) (token0 w) (self_address w) - reserve0 w in
  let amount1 := balance_of (ledger w) (token1 w) (self_address w) - reserve1 w in
  v = Z.min (amount0 * lp_total_supply w / reserve0 w) (amount1 * lp_total_supply w / reserve1 w) /\
  lp_total_supply w' = lp_total_supply w + v /\
  (forall a, lp_balances w' a = lp_balances w a + (if a =? to then v else 0)).
Proof.
  intros Hs E. apply run_ok_body in E. unfold mint in E.
  sym; cbn [reserve0 reserve1 locked token0 token1 ledger self_address lp_total_supply
    lp_balances block_time k_last block_timestamp_last set_locked set_reserves set_k_last set_lp set_ledger] in *;
  bool_facts.
  all: try (exfalso; lia).
  subst amount0 amount1. split; [reflexivity|]. split; [lia|].
  intro a. destruct (a =? to); lia.
Qed.

(** [safe_transfer] changes at most the ledger. *)
Lemma safe_transfer_sets_ledger t to a (w w' : World L) r :
  safe_transfer t to a w = (r, w') -> w' = set_ledger (ledger w') w.
Proof.
  unfold safe_transfer. destruct (transfer (ledger w) t (self_address w) to a) as [[|] l'].
  all: intros E; injection E as <- <-; reflexivity.
Qed.

(** What a successful [burn] leaves behind. *)
Lemma burn_ok_facts to (w w' : World L) x0 x1 :
  run (burn to) w = (Ok (x0, x1), w') ->
  let liquidity := lp_balances w (self_address w) in
  let supply := lp_total_supply w in
  supply <> 0 /\
  x0 = liquidity * reserve0 w / supply /\ x1 = liquidity * reserve1 w / supply /\
  lp_total_supply w' = supply - liquidity /\ lp_balances w' (self_address w) = 0 /\
  (forall a, a <> self_address w -> lp_balances w' a = lp_balances w a) /\
  reserve0 w' = balance_of (ledger w) (token0 w) (self_address w) - x0 /\
  reserve1 w' = balance_of (ledger w) (token1 w) (self_address w) - x1.
Proof.
  intros E. apply run_ok_body in E. unfold burn in E.
  sym; cbn [reserve0 reserve1 locked token0 token1 ledger self_address lp_total_supply
    lp_balances block_time k_last block_timestamp_last set_locked set_reserves set_k_last set_lp set_ledger] in *;
  bool_facts.
  cbv [calculate_burn_amounts rbind mul div] in *. sym. bool_facts.
  match goal with
  | H1 : safe_transfer _ _ _ _ = (Ok _, ?v1), H2 : safe_transfer _ _ _ ?v1 = (Ok _, ?v2) |- _ =>
      apply safe_transfer_sets_ledger in H1; apply safe_transfer_sets_ledger in H2;
      rewrite H2; rewrite H1
  end.
  cbn. subst liquidity supply.
  repeat split; try lia.
  - rewrite Z.eqb_refl. lia.
  - intros a Ha. rewrite (proj2 (Z.eqb_neq _ _) Ha). reflexivity.
Qed.

(** A successful [burn] takes the LP tokens the pool holds on itself, pays
    out liquidity * reserveX / supply of each token (the supply being
    nonzero), burns those LP tokens (no other LP balance changes), and
    stores as reserves the balances read before the transfers minus the
    amounts paid. *)
Theorem burn_pays_pro_rata to (w w' : World L) x0 x1 :
  run (burn to) w = (Ok (x0, x1), w') ->
  let liquidity := lp_balances w (self_address w) in
  let supply := lp_total_supply w in
  supply <> 0 /\
  x0 = liquidity * reserve0 w / supply /\ x1 = liquidity * reserve1 w / supply /\
  lp_total_supply w' = supply - liquidity /\ lp_balances w' (self_address w) = 0 /\
  (forall a, a <> self_address w -> lp_balances w' a = lp_balances w a) /\
  reserve0 w' = balance_of (ledger w) (token0 w) (self_address w) - x0 /\
  reserve1 w' = balance_of (ledger w) (token1 w) (self_address w) - x1.
Proof. apply burn_ok_facts. Qed.

End Records.

Section LedgerLaws.
Context {L : Type} `{TokenLedger L}.

(** Two properties of a token ledger: a successful transfer to another
    account debits the sender by the amount, and leaves the sender's balance
    of every other token as it was. *)
Hypothesis transfer_debits_sender : forall l t s r a l',
  r <> s -> transfer l t s r a = (true, l') -> balance_of l' t s = balance_of l t s - a.
Hypothesis transfer_keeps_other_assets : forall l t s r a l' t',
  t' <> t -> transfer l t s r a = (true, l') -> balance_of l' t' s = balance_of l t' s.

(** A successful [safe_transfer] is a successful ledger transfer from the pool. *)
Lemma safe_transfer_ok_inv t to a (w w' : World L) :
  safe_transfer t to a w = (Ok tt, w') ->
  exists l', transfer (ledger w) t (self_address w) to a = (true, l') /\ w' = set_ledger l' w.
Proof.
  unfold safe_transfer. destruct (transfer (ledger w) t (self_address w) to a) as [[|] l'].
  - intros E. injection E as <-. eauto.
  - discriminate.
Qed.
(** For a ledger with these properties, distinct pool tokens and a recipient
    other than the pool, a successful [skim] leaves the pool holding
    min(balance, reserve) of each token: it sends away exactly the excess
    over the reserve. *)
Theorem skim_leaves_reserves to (w w' : World L) :
  token0 w <> token1 w -> to <> self_address w ->
  run (skim to) w = (Ok tt, w') ->
  balance_of (ledger w') (token0 w) (self_address w) =
    Z.min (balance_of (ledger w) (token0 w) (self_address w)) (reserve0 w) /\
  balance_of (ledger w') (token1 w) (self_address w) =
    Z.min (balance_of (ledger w) (token1 w) (self_address w)) (reserve1 w).
Proof.
  intros Ht Hto E. apply run_ok_body in E. unfold skim in E.
  sym; cbn [reserve0 reserve1 locked token0 token1 ledger self_address lp_total_supply
    lp_balances block_time k_last block_timestamp_last set_locked set_reserves set_k_last set_lp set_ledger] in *;
  bool_facts.
  all: repeat match goal with
         | Hs : safe_transfer _ _ _ _ = (Ok tt, _) |- _ =>
             apply safe_transfer_ok_inv in Hs; destruct Hs as (? & ? & ->)
         | u : unit |- _ => destruct u
         end.
  all: cbn [ledger self_address set_ledger] in *.
  all: repeat match goal with
         | T : transfer ?l ?t ?s ?r ?a = (true, ?l') |- _ =>
             let t' := match t with token0 ?v => constr:(token1 v) | token1 ?v => constr:(token0 v) end in
             pose proof (transfer_debits_sender l t s r a l' ltac:(congruence) T);
             pose proof (transfer_keeps_other_assets l t s r a l' t' ltac:(congruence) T);
             clear T
         end.
  all: split; lia.
Qed.

(** For such a ledger, distinct pool tokens and a recipient other than the
    pool, the reserves a successful [burn] stores are the pool's actual
    token balances after the payout. *)
Theorem burn_reserves_match_balances to (w w' : World L) x0 x1 :
  token0 w <> token1 w -> to <> self_address w ->
  run (burn to) w = (Ok (x0, x1), w') ->
  reserve0 w' = balance_of (ledger w') (token0 w') (self_address w') /\
  reserve1 w' = balance_of (ledger w') (token1 w') (self_address w').
Proof.
  intros Ht Hto E. apply run_ok_body in E. unfold burn in E.
  sym; cbn [reserve0 reserve1 locked token0 token1 ledger self_address lp_total_supply
    lp_balances block_time k_last block_timestamp_last set_locked set_reserves set_k_last set_lp set_ledger] in *;
  bool_facts.
  cbv [calculate_burn_amounts rbind mul div] in *. sym. bool_facts.
  all: repeat match goal with
         | Hs : safe_transfer _ _ _ _ = (Ok tt, _) |- _ =>
             apply safe_transfer_ok_inv in Hs; destruct Hs as (? & ? & ->)
         | u : unit |- _ => destruct u
         end.
  all: cbn [ledger self_address set_ledger token0 token1 set_reserves set_locked set_lp reserve0 reserve1] in *.
  all: repeat match goal with
         | T : transfer ?l ?t ?s ?r ?a = (true, ?l') |- _ =>
             let t' := match t with token0 ?v => constr:(token1 v) | token1 ?v => constr:(token0 v) end in
             pose proof (transfer_debits_sender l t s r a l' ltac:(congruence) T);
             pose proof (transfer_keeps_other_assets l t s r a l' t' ltac:(congruence) T);
             clear T
         end.
  all: split; lia.
Qed.
End LedgerLaws.

Section Deployment.
Context {L : Type} `{TokenLedger L}.
Variable MINIMUM_LIQUIDITY : Z.

(** A field that every pool method and every outside move leaves alone is
    kept by every step. *)
Lemma step_keeps_field {X} (f : World L -> X) w w' :
  (forall to, preserves f (mint MINIMUM_LIQUIDITY to : M L Z)) ->
  (forall to, preserves f (burn to : M L (Z * Z))) ->
  (forall a0 a1 to, preserves f (swap a0 a1 to : M L unit)) ->
  (forall to, preserves f (skim to : M L unit)) ->
  preserves f (sync : M L unit) ->
  (forall from to amount (v : World L), f (lp_move from to amount v) = f v) ->
  (forall l (v : World L), f (set_ledger l v) = f v) ->
  (forall t (v : World L), f (set_block_time t v) = f v) ->
  step MINIMUM_LIQUIDITY w w' -> f w' = f w.
Proof.
  intros Pm Pb Ps Pk Py Pl Pg Pt.
  destruct 1 as [w w' to v E|w w' to v E|w w' a0 a1 to E|w w' to E|w w' E|w from to amount _|w l|w t].
  all: first [ eapply run_preserves; [| exact E]; auto | auto ].
Qed.

Ltac keep_tac :=
  apply step_keeps_field;
  [ intros; unfold mint; frame_tac
  | intros; unfold burn; frame_tac
  | intros; unfold swap, swap_send_out; frame_tac
  | intros; unfold skim; frame_tac
  | unfold sync; frame_tac
  | intros; reflexivity | intros; reflexivity | intros; reflexivity ].

Lemma step_keeps_fixed_fields w w' :
  step MINIMUM_LIQUIDITY w w' ->
  factory w' = factory w /\ self_address w' = self_address w /\
  price0_cumulative_last w' = price0_cumulative_last w /\
  price1_cumulative_last w' = price1_cumulative_last w.
Proof. intros Hs. repeat split; revert Hs; keep_tac. Qed.

(** Every state a pool deployed by [init] can reach keeps the factory and
    the pool's own address given at [init], and the price accumulators
    [price0_cumulative_last] and [price1_cumulative_last] stay 0: no method
    ever writes them. *)
Theorem deployed_pool_fixed_fields a b f (l : L) self now w :
  reachable MINIMUM_LIQUIDITY (init a b f l self now) w ->
  factory w = f /\ self_address w = self /\
  price0_cumulative_last w = 0 /\ price1_cumulative_last w = 0.
Proof.
  induction 1 as [|w w' _ IH Hs].
  - unfold init. destruct (a <? b); repeat split.
  - destruct (step_keeps_fixed_fields w w' Hs) as (E1 & E2 & E3 & E4).
    rewrite E1, E2, E3, E4. exact IH.
Qed.

(** [k_last] is written by [mint] alone: a step either leaves it as it was
    or is a successful [mint], which sets it to the product of the reserves
    it stores. *)
Theorem k_last_set_only_by_mint w w' :
  step MINIMUM_LIQUIDITY w w' ->
  k_last w' = k_last w \/
  ((exists to v, run (mint MINIMUM_LIQUIDITY to) w = (Ok v, w')) /\
   k_last w' = reserve0 w' * reserve1 w').
Proof.
  destruct 1 as [w w' to v E|w w' to v E|w w' a0 a1 to E|w w' to E|w w' E|w from to amount _|w l|w t].
  - right. split; [eauto|]. apply (mint_ok_facts _ _ _ _ _ E).
  - left. eapply run_preserves; [| exact E]. unfold burn. frame_tac.
  - left. eapply run_preserves; [| exact E]. unfold swap, swap_send_out. frame_tac.
  - left. eapply run_preserves; [| exact E]. unfold skim. frame_tac.
  - left. eapply run_preserves; [| exact E]. unfold sync. frame_tac.
  - left. reflexivity.
  - left. reflexivity.
  - left. reflexivity.
Qed.

End Deployment.

Section MinimumLiquidity.
Context {L : Type} `{TokenLedger L}.

(** The LP ledger after a first [mint]. *)
Lemma first_mint_lp MIN to (w w' : World L) v :
  lp_total_supply w = 0 ->
  run (mint MIN to) w = (Ok v, w') ->
  lp_total_supply w' = v + MIN /\ self_address w' = self_address w /\
  (forall a, lp_balances w' a =
     lp_balances w a + (if a =? to then v else 0) + (if a =? self_address w then MIN else 0)).
Proof.
  intros Hs E. apply run_ok_body in E. unfold mint in E.
  sym; cbn [reserve0 reserve1 locked token0 token1 ledger self_address lp_total_supply
    lp_balances block_time set_locked set_reserves set_k_last set_lp set_ledger] in *;
  bool_facts.
  all: try (exfalso; lia).
  split; [lia|]. split; [reflexivity|].
  intro a. destruct (a =? to), (a =? self_address w); lia.
Qed.

(** The [MINIMUM_LIQUIDITY] shares the first [mint] credits to the pool's
    own address are not kept out of circulation: [burn] redeems whatever LP
    balance the pool holds on itself, so the next successful [burn] (by
    anyone, to any recipient) redeems them with the rest, pays
    MINIMUM_LIQUIDITY * reserve / supply of each asset for them, and leaves
    the supply at the depositor's shares. *)
Theorem minimum_liquidity_burnable MIN to to' (w w1 w2 : World L) v x0 x1 :
  lp_total_supply w = 0 -> lp_balances w (self_address w) = 0 -> to <> self_address w ->
  run (mint MIN to) w = (Ok v, w1) ->
  run (burn to') w1 = (Ok (x0, x1), w2) ->
  lp_total_supply w1 = v + MIN /\ lp_balances w1 (self_address w) = MIN /\
  x0 = MIN * reserve0 w1 / (v + MIN) /\ x1 = MIN * reserve1 w1 / (v + MIN) /\
  lp_total_supply w2 = v /\ lp_balances w2 (self_address w) = 0 /\ lp_balances w2 to = lp_balances w to + v.
Proof.
  intros Hs H0 Hto Em Eb.
  destruct (first_mint_lp MIN to w w1 v Hs Em) as (S1 & A1 & B1).
  destruct (burn_ok_facts to' w1 w2 x0 x1 Eb) as (_ & X0 & X1 & S2 & B2 & O2 & _).
  rewrite A1 in *.
  assert (M : lp_balances w1 (self_address w) = MIN).
  { rewrite B1, Z.eqb_refl, (proj2 (Z.eqb_neq _ _) (not_eq_sym Hto)). lia. }
  rewrite M, S1 in *.
  repeat split; try assumption; try lia.
  rewrite (O2 to Hto), B1, Z.eqb_refl, (proj2 (Z.eqb_neq _ _) Hto). lia.
Qed.
End MinimumLiquidity.
End PoolExtras.

(** ** Further properties of the router's quoting (src/src/dex/router.rs) *)

Module RouterExtras.
Import SafeMath AmmMath Router RouterSpec.

(** Inversion of a successful [rbind]. *)
Lemma rbind_ok_inv {A B} (r : result A) (k : A -> result B) v :
  rbind r k = Ok v -> exists a, r = Ok a /\ k a = Ok v.
Proof. destruct r as [a|e]; cbn; [eauto | discriminate]. Qed.

(** The hops of a successful forward quote loop. *)
Lemma amounts_out_loop_hops c path : forall a amounts,
  path <> [] -> amounts_out_loop c a path = Ok amounts ->
  length amounts = length path /\ nth 0 amounts 0 = a /\
  forall i, (S i < length path)%nat ->
    exists ri ro, get_reserves c (nth i path 0) (nth (S i) path 0) = Ok (ri, ro) /\
      get_amount_out (nth i amounts 0) ri ro = Ok (nth (S i) amounts 0).
Proof.
  induction path as [|x rest IH]; intros a amounts Hne E; [congruence|].
  destruct rest as [|y r].
  - cbn in E. injection E as <-. split; [reflexivity|]. split; [reflexivity|].
    intros i Hi. cbn in Hi. lia.
  - cbn [amounts_out_loop] in E.
    apply rbind_ok_inv in E as ([ri ro] & Hr & E). cbn beta iota in E.
    apply rbind_ok_inv in E as (b & Hb & E).
    apply rbind_ok_inv in E as (tl & Htl & E). injection E as <-.
    destruct (IH b tl ltac:(discriminate) Htl) as (Hl & H0 & Hh).
    split; [cbn; rewrite Hl; reflexivity|]. split; [reflexivity|].
    intros [|i] Hi.
    + exists ri, ro. cbn [nth]. rewrite H0. auto.
    + apply (Hh i). cbn [length] in Hi |- *. lia.
Qed.

(** The hops of a successful backward quote loop. *)
Lemma amounts_in_loop_hops c path : forall y amounts,
  path <> [] -> amounts_in_loop c y path = Ok amounts ->
  length amounts = length path /\ nth (length path - 1) amounts 0 = y /\
  forall i, (S i < length path)%nat ->
    exists ri ro, get_reserves c (nth i path 0) (nth (S i) path 0) = Ok (ri, ro) /\
      get_amount_in (nth (S i) amounts 0) ri ro = Ok (nth i amounts 0).
Proof.
  induction path as [|x rest IH]; intros y amounts Hne E; [congruence|].
  destruct rest as [|z r].
  - cbn in E. injection E as <-. split; [reflexivity|]. split; [reflexivity|].
    intros i Hi. cbn in Hi. lia.
  - cbn [amounts_in_loop] in E.
    apply rbind_ok_inv in E as (tl & Htl & E).
    apply rbind_ok_inv in E as ([ri ro] & Hr & E). cbn beta iota in E.
    apply rbind_ok_inv in E as (b & Hb & E). injection E as <-.
    destruct (IH y tl ltac:(discriminate) Htl) as (Hl & Hlast & Hh).
    split; [cbn; rewrite Hl; reflexivity|].
    split.
    + cbn [length] in *. replace (S (S (length r)) - 1)%nat with (S (length (z :: r) - 1))%nat
        by (cbn; lia). cbn [nth]. exact Hlast.
    + intros [|i] Hi.
      * exists ri, ro. cbn [nth]. destruct tl as [|t tl']; [cbn in Hl; discriminate|]. cbn in Hb |- *. auto.
      * apply (Hh i). cbn [length] in Hi |- *. lia.
Qed.

(** [get_reserves] passes on nonnegative pool reserves. *)
Lemma get_reserves_nonneg c a b ri ro :
  (forall p, 0 <= fst (pair_reserves c p) /\ 0 <= snd (pair_reserves c p)) ->
  get_reserves c a b = Ok (ri, ro) -> 0 <= ri /\ 0 <= ro.
Proof.
  intros Hn. unfold get_reserves. destruct (sort_tokens a b) as [t0 t1].
  destruct (get_pair c a b) as [p|]; [|discriminate].
  specialize (Hn p). destruct (pair_reserves c p) as [r0 r1]. cbn in Hn.
  destruct (a =? t0); intros E; injection E as <- <-; lia.
Qed.

(** A successful [get_amount_in] asks for at least one unit. *)
Lemma get_amount_in_pos z ri ro g :
  0 <= z -> 0 <= ri -> get_amount_in z ri ro = Ok g -> 1 <= g.
Proof.
  intros Hz Hri E. apply get_amount_in_ok_inv in E as (Hlt & ->).
  assert (0 <= ri * z * 1000 / ((ro - z) * 997)) by (apply Z.div_pos; nia).
  lia.
Qed.

(** One hop: an input of at least what [get_amount_in] asks for [z] gives
    at least [z] out of [get_amount_out] on the same reserves. *)
Lemma hop_covers z ri ro g a b :
  0 <= z -> 0 <= ri ->
  get_amount_in z ri ro = Ok g -> g <= a -> get_amount_out a ri ro = Ok b -> z <= b.
Proof.
  intros Hz Hri Ei Ha Eo.
  pose proof (get_amount_in_pos z ri ro g Hz Hri Ei) as Hg.
  apply get_amount_in_ok_inv in Ei as (Hlt & Hgv).
  apply get_amount_out_ok_inv in Eo as (Hri0 & Hro0 & ->).
  set (d := (ro - z) * 997) in *.
  assert (Hd : 0 < d) by (subst d; lia).
  assert (Hq : ri * z * 1000 < g * d).
  { rewrite Hgv. pose proof (Z.mul_succ_div_gt (ri * z * 1000) d Hd). nia. }
  apply Z.div_le_lower_bound; [nia|].
  subst d. nia.
Qed.

(** The first amount of a successful backward quote is nonnegative. *)
Lemma amounts_in_loop_hd_nonneg c y path ins :
  (forall p, 0 <= fst (pair_reserves c p) /\ 0 <= snd (pair_reserves c p)) -> 0 <= y ->
  amounts_in_loop c y path = Ok ins -> 0 <= hd 0 ins.
Proof.
  intros Hn Hy. revert ins. induction path as [|x rest IH]; intros ins E.
  - cbn in E. injection E as <-. exact Hy.
  - destruct rest as [|z r]; [cbn in E; injection E as <-; exact Hy|].
    cbn [amounts_in_loop] in E.
    apply rbind_ok_inv in E as (tl & Htl & E).
    apply rbind_ok_inv in E as ([ri ro] & Hr & E). cbn beta iota in E.
    apply rbind_ok_inv in E as (g & Hg & E). injection E as <-. cbn [hd].
    destruct (get_reserves_nonneg _ _ _ _ _ Hn Hr).
    pose proof (get_amount_in_pos (hd 0 tl) ri ro g (IH tl Htl) ltac:(lia) Hg). lia.
Qed.

(** The coverage of [exact_output_quote_covers], on the loops. *)
Lemma amounts_cover_loop c y path :
  (forall p, 0 <= fst (pair_reserves c p) /\ 0 <= snd (pair_reserves c p)) -> 0 <= y ->
  forall ins, amounts_in_loop c y path = Ok ins ->
  forall a outs, hd 0 ins <= a -> amounts_out_loop c a path = Ok outs -> y <= last outs 0.
Proof.
  intros Hn Hy. induction path as [|x rest IH]; intros ins Ei a outs Ha Eo.
  - cbn in Ei, Eo. injection Ei as <-. injection Eo as <-. exact Ha.
  - destruct rest as [|z r].
    + cbn in Ei, Eo. injection Ei as <-. injection Eo as <-. exact Ha.
    + cbn [amounts_in_loop] in Ei.
      apply rbind_ok_inv in Ei as (tl & Htl & Ei).
      apply rbind_ok_inv in Ei as ([ri ro] & Hr & Ei). cbn beta iota in Ei.
      apply rbind_ok_inv in Ei as (g & Hg & Ei). injection Ei as <-. cbn [hd] in Ha.
      cbn [amounts_out_loop] in Eo.
      apply rbind_ok_inv in Eo as ([ri' ro'] & Hr' & Eo). rewrite Hr in Hr'.
      injection Hr' as <- <-. cbn beta iota in Eo.
      apply rbind_ok_inv in Eo as (b & Hb & Eo).
      apply rbind_ok_inv in Eo as (touts & Ht & Eo). injection Eo as <-.
      destruct (get_reserves_nonneg _ _ _ _ _ Hn Hr).
      pose proof (amounts_in_loop_hd_nonneg c y (z :: r) tl Hn Hy Htl).
      pose proof (hop_covers (hd 0 tl) ri ro g a b ltac:(assumption) ltac:(assumption) Hg Ha Hb).
      specialize (IH tl Htl b touts ltac:(assumption) Ht).
      destruct (amounts_out_loop_hops c (z :: r) b touts ltac:(discriminate) Ht) as (Hl & _).
      destruct touts as [|t touts']; [discriminate Hl|].
      exact IH.
Qed.

(** [last] is the element at the last index. *)
Lemma last_as_nth (l : list Z) d : last l d = nth (length l - 1) l d.
Proof.
  induction l as [|x l IH]; [reflexivity|].
  destruct l as [|y l]; [reflexivity|].
  transitivity (last (y :: l) d); [reflexivity|]. rewrite IH. cbn [length].
  replace (S (S (length l)) - 1)%nat with (S (S (length l) - 1))%nat by lia. reflexivity.
Qed.

(** With nonnegative pool reserves and a requested output [y >= 0], an
    input of at least the first amount [get_amounts_in] quotes for [y],
    quoted forward along the same path by [get_amounts_out] on the same
    pools, comes out at [y] or more: on every hop the rounded-up input of
    [get_amount_in] buys at least the amount it was computed for. *)
Theorem exact_output_quote_covers c y path ins :
  (forall p, 0 <= fst (pair_reserves c p) /\ 0 <= snd (pair_reserves c p)) -> 0 <= y ->
  get_amounts_in c y path = Ok ins ->
  forall a outs, nth 0 ins 0 <= a -> get_amounts_out c a path = Ok outs ->
  y <= nth (length outs - 1) outs 0.
Proof.
  intros Hn Hy Ei a outs Ha Eo. unfold get_amounts_in, get_amounts_out in *.
  destruct (Nat.ltb (length path) 2); [discriminate|].
  rewrite <- last_as_nth.
  apply (amounts_cover_loop c y path Hn Hy ins Ei a outs); [|exact Eo].
  destruct ins; exact Ha.
Qed.

(** [get_amounts_out] fails with [InvalidPath] on a path shorter than 2;
    when it succeeds, it returns one amount per path entry, the first being
    [amount_in], and each next amount is [get_amount_out] of the previous one
    on the reserves [get_reserves] reports for that hop. *)
Theorem get_amounts_out_hops c a path :
  ((length path < 2)%nat -> get_amounts_out c a path = Err InvalidPath) /\
  forall amounts, get_amounts_out c a path = Ok amounts ->
  (2 <= length path)%nat /\ length amounts = length path /\ nth 0 amounts 0 = a /\
  forall i, (S i < length path)%nat ->
    exists ri ro, get_reserves c (nth i path 0) (nth (S i) path 0) = Ok (ri, ro) /\
      get_amount_out (nth i amounts 0) ri ro = Ok (nth (S i) amounts 0).
Proof.
  unfold get_amounts_out. split.
  - intros Hl. apply Nat.ltb_lt in Hl. rewrite Hl. reflexivity.
  - intros amounts E. destruct (Nat.ltb (length path) 2) eqn:Hl; [discriminate|].
    apply Nat.ltb_ge in Hl. split; [exact Hl|].
    apply amounts_out_loop_hops; [|exact E]. intros ->. cbn in Hl. lia.
Qed.

(** [get_amounts_in] fails with [InvalidPath] on a path shorter than 2;
    when it succeeds, it returns one amount per path entry, the last being
    [amount_out], and each amount is [get_amount_in] of the next one on the
    reserves [get_reserves] reports for that hop. *)
Theorem get_amounts_in_hops c y path :
  ((length path < 2)%nat -> get_amounts_in c y path = Err InvalidPath) /\
  forall amounts, get_amounts_in c y path = Ok amounts ->
  (2 <= length path)%nat /\ length amounts = length path /\
  nth (length amounts - 1) amounts 0 = y /\
  forall i, (S i < length path)%nat ->
    exists ri ro, get_reserves c (nth i path 0) (nth (S i) path 0) = Ok (ri, ro) /\
      get_amount_in (nth (S i) amounts 0) ri ro = Ok (nth i amounts 0).
Proof.
  unfold get_amounts_in. split.
  - intros Hl. apply Nat.ltb_lt in Hl. rewrite Hl. reflexivity.
  - intros amounts E. destruct (Nat.ltb (length path) 2) eqn:Hl; [discriminate|].
    apply Nat.ltb_ge in Hl. split; [exact Hl|].
    destruct (amounts_in_loop_hops c path y amounts) as (L1 & L2 & L3); [intros ->; cbn in Hl; lia|exact E|].
    rewrite L1. auto.
Qed.

(** [get_reserves a b] fails with [PairNotFound] when the registry has no
    pool for [(a, b)]; otherwise it returns the pool's reserves in the order
    of its arguments: [(reserve0, reserve1)] when [a <= b], swapped when
    [a > b].  So for distinct assets whose registry entry does not depend on
    the argument order, swapping the arguments swaps the result. *)
Theorem get_reserves_oriented c a b :
  (forall p, get_pair c a b = Some p ->
     get_reserves c a b = Ok (if a <=? b then pair_reserves c p
                              else (snd (pair_reserves c p), fst (pair_reserves c p)))) /\
  (get_pair c a b = None -> get_reserves c a b = Err PairNotFound) /\
  (a <> b -> get_pair c b a = get_pair c a b ->
     get_reserves c b a = match get_reserves c a b with
                          | Ok (ra, rb) => Ok (rb, ra)
                          | Err e => Err e
                          end).
Proof.
  unfold get_reserves, sort_tokens. split; [|split].
  - intros p Hp. rewrite Hp. destruct (pair_reserves c p) as [r0 r1]. cbn.
    destruct (Z.ltb_spec a b), (Z.leb_spec a b); try lia; cbn.
    + rewrite Z.eqb_refl. reflexivity.
    + assert (a = b) as -> by lia. rewrite Z.eqb_refl. reflexivity.
    + replace (a =? b) with false by (symmetry; apply Z.eqb_neq; lia). reflexivity.
  - intros Hp. destruct (a <? b); rewrite Hp; reflexivity.
  - intros Hab Hs. rewrite Hs. destruct (get_pair c a b) as [p|]; [|destruct (a <? b), (b <? a); reflexivity].
    destruct (pair_reserves c p) as [r0 r1].
    destruct (Z.ltb_spec a b), (Z.ltb_spec b a); try lia; cbn;
      rewrite ?Z.eqb_refl; rewrite ?(proj2 (Z.eqb_neq a b) Hab), ?(proj2 (Z.eqb_neq b a) (not_eq_sym Hab)); reflexivity.
Qed.

End RouterExtras.

(** ** Properties of the router's entry points (src/src/dex/router.rs) *)

Module RouterOpsExtras.
Import SafeMath AmmMath Router RouterOps RouterExtras.

Section EntryFacts.
Context {E : Type} `{External E}.

(** Inversion of a successful router [bind]. *)
Lemma rm_bind_ok_inv {A B} (m : RM E A) (k : A -> RM E B) w v w' :
  RouterOps.bind m k w = (Ok v, w') -> exists a w1, m w = (Ok a, w1) /\ k a w1 = (Ok v, w').
Proof. unfold RouterOps.bind. destruct (m w) as [[a|e] w1]; [eauto | discriminate]. Qed.

(** A successful router call ran its body to the end. *)
Lemma rrun_ok {A} (m : RM E A) w v w' : RouterOps.run m w = (Ok v, w') -> m w = (Ok v, w').
Proof. unfold RouterOps.run. destruct (m w) as [[a|e] w1]; congruence. Qed.

Ltac bool_facts :=
  repeat match goal with
  | X : (_ <? _) = true |- _ => apply Z.ltb_lt in X
  | X : (_ <? _) = false |- _ => apply Z.ltb_ge in X
  | X : (_ =? _) = true |- _ => apply Z.eqb_eq in X
  | X : (_ =? _) = false |- _ => apply Z.eqb_neq in X
  end.

Ltac rsym :=
  repeat match goal with
  | X : RouterOps.bind _ _ _ = (Ok _, _) |- _ =>
      apply rm_bind_ok_inv in X; destruct X as (? & ? & ? & X)
  | X : (if ?c then _ else _) _ = (Ok _, _) |- _ => destruct c eqn:?
  | X : (if ?c then _ else _) = (Ok _, _) |- _ => destruct c eqn:?
  | X : (match ?x with _ => _ end) _ = (Ok _, _) |- _ => destruct x eqn:?
  | X : (match ?x with _ => _ end) = (Ok _, _) |- _ => destruct x eqn:?
  | X : (let (_, _) := ?x in _) _ = (Ok _, _) |- _ => destruct x eqn:?
  | X : (let (_, _) := ?x in _) = (Ok _, _) |- _ => destruct x eqn:?
  | X : (Err _, _) = (Ok _, _) |- _ => discriminate X
  | X : (Ok _, _) = (Ok _, _) |- _ => injection X; clear X; intros; subst
  | X : (?r, ?s) = (Ok _, _) |- _ => injection X; clear X; intros; subst
  | X : _ = (Ok _, _) |- _ =>
      progress (cbv [ensure_deadline view caller get_pair get_or_create_pair safe_transfer_from
                     call_pair_mint call_pair_burn call_pair_swap call_pair_transfer_from
                     RouterOps.ret RouterOps.throw] in X; cbn beta iota in X)
  end.

(** Every state-changing entry point of the router checks the deadline
    first: with the block time past the deadline, [add_liquidity],
    [remove_liquidity], [swap_exact_tokens_for_tokens] and
    [swap_tokens_for_exact_tokens] fail with [DeadlineExpired] and change
    nothing. *)
Theorem entry_points_check_deadline (w : RWorld E) deadline :
  deadline < block_time_of (env w) ->
  (forall ta tb ad bd amin bmin to,
     RouterOps.run (add_liquidity ta tb ad bd amin bmin to deadline) w = (Err DeadlineExpired, w)) /\
  (forall ta tb liquidity amin bmin to,
     RouterOps.run (remove_liquidity ta tb liquidity amin bmin to deadline) w = (Err DeadlineExpired, w)) /\
  (forall amount_in amount_out_min path to,
     RouterOps.run (swap_exact_tokens_for_tokens amount_in amount_out_min path to deadline) w =
       (Err DeadlineExpired, w)) /\
  (forall amount_out amount_in_max path to,
     RouterOps.run (swap_tokens_for_exact_tokens amount_out amount_in_max path to deadline) w =
       (Err DeadlineExpired, w)).
Proof.
  intros Hd. apply Z.ltb_lt in Hd.
  split; [|split; [|split]]; intros;
    unfold RouterOps.run, add_liquidity, remove_liquidity, swap_exact_tokens_for_tokens,
      swap_tokens_for_exact_tokens, RouterOps.bind at 1, ensure_deadline; rewrite Hd; reflexivity.
Qed.

(** A successful [swap_exact_tokens_for_tokens] was called before its
    deadline, returns the [get_amounts_out] quote of the state it started
    in, whose last amount is at least [amount_out_min]; it took exactly
    [amount_in] of the first asset from the caller into the first hop's pool
    and then ran [execute_swap] on the quoted amounts. *)
Theorem swap_exact_tokens_for_tokens_ok amount_in amount_out_min path to deadline (w w' : RWorld E) amounts :
  RouterOps.run (swap_exact_tokens_for_tokens amount_in amount_out_min path to deadline) w = (Ok amounts, w') ->
  block_time_of (env w) <= deadline /\
  get_amounts_out (chain_of w) amount_in path = Ok amounts /\
  amount_out_min <= nth (length amounts - 1) amounts 0 /\
  exists p e1,
    factory_get_pair (env w) (r_factory w) (nth 0 path 0) (nth 1 path 0) = Some p /\
    token_transfer_from (env w) (nth 0 path 0) (caller_of (env w)) p amount_in = (true, e1) /\
    execute_swap amounts path to (set_env e1 w) = (Ok tt, w').
Proof.
  intros X. apply rrun_ok in X. unfold swap_exact_tokens_for_tokens in X.
  rsym. bool_facts.
  assert (Hd : nth 0 amounts 0 = amount_in).
  { match goal with Hq : get_amounts_out _ _ _ = Ok _ |- _ => revert Hq end.
    intros Hq. unfold get_amounts_out in Hq.
    destruct (Nat.ltb (length path) 2) eqn:Hl; [discriminate|]. apply Nat.ltb_ge in Hl.
    match type of Hq with amounts_out_loop ?c _ _ = _ =>
      destruct (amounts_out_loop_hops c path amount_in amounts) as (_ & Hd & _);
        [intros ->; cbn in Hl; lia | exact Hq | exact Hd] end. }
  rewrite Hd in Heqp.
  destruct x9. repeat split; eauto.
Qed.

(** A successful [swap_tokens_for_exact_tokens] was called before its
    deadline, returns the [get_amounts_in] quote of the state it started in,
    whose first amount is at most [amount_in_max]; it took exactly that first
    amount of the first asset from the caller into the first hop's pool and
    then ran [execute_swap] on the quoted amounts. *)
Theorem swap_tokens_for_exact_tokens_ok amount_out amount_in_max path to deadline (w w' : RWorld E) amounts :
  RouterOps.run (swap_tokens_for_exact_tokens amount_out amount_in_max path to deadline) w = (Ok amounts, w') ->
  block_time_of (env w) <= deadline /\
  get_amounts_in (chain_of w) amount_out path = Ok amounts /\
  nth 0 amounts 0 <= amount_in_max /\
  exists p e1,
    factory_get_pair (env w) (r_factory w) (nth 0 path 0) (nth 1 path 0) = Some p /\
    token_transfer_from (env w) (nth 0 path 0) (caller_of (env w)) p (nth 0 amounts 0) = (true, e1) /\
    execute_swap amounts path to (set_env e1 w) = (Ok tt, w').
Proof.
  intros X. apply rrun_ok in X. unfold swap_tokens_for_exact_tokens in X.
  rsym. bool_facts. destruct x9. repeat split; eauto.
Qed.

(** A successful [add_liquidity] was called before its deadline and
    returns the amounts [calculate_liquidity_amounts] computes on the state
    it started in; it deposits into the registered pool, or into the one
    [create_pair] returns when none is registered, exactly those amounts of
    the two assets from the caller, and returns the LP amount that pool's
    [mint] reports for [to]. *)
Theorem add_liquidity_ok ta tb ad bd amin bmin to deadline (w w' : RWorld E) a b liquidity :
  RouterOps.run (add_liquidity ta tb ad bd amin bmin to deadline) w = (Ok (a, b, liquidity), w') ->
  block_time_of (env w) <= deadline /\
  calculate_liquidity_amounts (chain_of w) ta tb ad bd amin bmin = Ok (a, b) /\
  exists p e0 e1 e2 e3,
    ((factory_get_pair (env w) (r_factory w) ta tb = Some p /\ e0 = env w) \/
     (factory_get_pair (env w) (r_factory w) ta tb = None /\
      factory_create_pair (env w) (r_factory w) ta tb = (Ok p, e0))) /\
    token_transfer_from e0 ta (caller_of e0) p a = (true, e1) /\
    token_transfer_from e1 tb (caller_of e1) p b = (true, e2) /\
    pair_mint e2 p to = (Ok liquidity, e3) /\
    w' = set_env e3 w.
Proof.
  intros X. apply rrun_ok in X. unfold add_liquidity in X.
  rsym. bool_facts.
  all: split; [lia|]; split; [auto|].
  - do 5 eexists. split; [left; eauto|]. cbn in *. eauto.
  - do 5 eexists. split; [right; eauto|]. cbn in *. repeat split; eauto.
Qed.

(** Once the deadline and pool lookup pass, the outcome of
    [remove_liquidity] depends only on the pool's [burn] after the LP
    [transfer_from]: the boolean that transfer returns is never checked, so
    a failed LP transfer does not stop the call.  The burned amounts are
    reordered to the argument order ([token_a <= token_b] keeps the pool's
    order) and each is checked against its minimum, [amount_a] first. *)
Theorem remove_liquidity_outcome ta tb liquidity amin bmin to deadline (w : RWorld E) p ok e1 :
  block_time_of (env w) <= deadline ->
  factory_get_pair (env w) (r_factory w) ta tb = Some p ->
  pair_transfer_from (env w) p (caller_of (env w)) p liquidity = (ok, e1) ->
  fst (RouterOps.run (remove_liquidity ta tb liquidity amin bmin to deadline) w) =
    match fst (pair_burn e1 p to) with
    | Ok (x0, x1) =>
        let '(a, b) := if ta <=? tb then (x0, x1) else (x1, x0) in
        if a <? amin then Err InsufficientAmount
        else if b <? bmin then Err InsufficientAmount
        else Ok (a, b)
    | Err e => Err e
    end.
Proof.
  intros Hd Hp Ht. apply Z.ltb_ge in Hd.
  unfold RouterOps.run, remove_liquidity, RouterOps.bind, ensure_deadline, get_pair, caller,
    call_pair_transfer_from, call_pair_burn, RouterOps.ret, RouterOps.throw.
  rewrite Hd, Hp. cbn [env set_env]. rewrite Ht. cbn [env set_env].
  destruct (pair_burn e1 p to) as [[[x0 x1]|e] e2]; cbn [fst]; [|reflexivity].
  unfold sort_tokens. destruct (Z.ltb_spec ta tb) as [Hlt|Hge].
  - rewrite Z.eqb_refl, (proj2 (Z.leb_le ta tb) ltac:(lia)).
    destruct (x0 <? amin), (x1 <? bmin); reflexivity.
  - destruct (Z.eqb_spec ta tb) as [->|Hne].
    + rewrite ?Z.eqb_refl, Z.leb_refl. destruct (x0 <? amin), (x1 <? bmin); reflexivity.
    + rewrite (proj2 (Z.leb_gt ta tb) ltac:(lia)).
      destruct (x1 <? amin), (x0 <? bmin); reflexivity.
Qed.

End EntryFacts.
End RouterOpsExtras.

(** ** Runs of the further properties on explicit inputs *)

Module ExtraExamples.
Import SafeMath AmmMath Pair Concrete PoolSpec PoolValues PoolExtras Router RouterExtras
  RouterOpsExtras Examples.

(** The ledger of [Concrete] debits the sender of a successful transfer. *)
Lemma fn_transfer_debits_sender (l : FnLedger) t s r a l' :
  r <> s -> transfer l t s r a = (true, l') -> balance_of l' t s = balance_of l t s - a.
Proof.
  intros Hrs. cbn. unfold fn_transfer.
  destruct ((a <? 0) || (l t s <? a)); [discriminate|].
  intros E. injection E as <-. rewrite !Z.eqb_refl.
  rewrite (proj2 (Z.eqb_neq s r) (not_eq_sym Hrs)). lia.
Qed.

(** ... and leaves its balances of the other assets alone. *)
Lemma fn_transfer_keeps_other_assets (l : FnLedger) t s r a l' t' :
  t' <> t -> transfer l t s r a = (true, l') -> balance_of l' t' s = balance_of l t' s.
Proof.
  intros Ht. cbn. unfold fn_transfer.
  destruct ((a <? 0) || (l t s <? a)); [discriminate|].
  intros E. injection E as <-. rewrite (proj2 (Z.eqb_neq t' t) Ht). reflexivity.
Qed.

(** The pool after a first deposit of [(1000, 4000)] on [pool 1000 4000 0 0 0 false]. *)
Definition after_first_mint : World FnLedger :=
  snd (run (mint 1000 50) (pool 1000 4000 0 0 0 false)).

Lemma locked_pool_rejects_calls_witness :
  locked (pool 1100 1000 1000 1000 1 true) = true /\
  mint 1000 50 (pool 1100 1000 1000 1000 1 true) = (Err Locked, pool 1100 1000 1000 1000 1 true).
Proof.
  split; [reflexivity|].
  exact (proj1 (locked_pool_rejects_calls 1000 50 0 0 (pool 1100 1000 1000 1000 1 true) eq_refl)).
Defined.

Lemma skim_only_moves_assets_witness :
  skim 50 (pool 1000 900 1000 1000 1 false) = (Ok tt, pool 1000 900 1000 1000 1 false).
Proof.
  apply (proj2 (skim_only_moves_assets 50 (pool 1000 900 1000 1000 1 false)));
    apply Z.leb_le; vm_compute; reflexivity.
Defined.

Lemma pool_prices_witness :
  reserve0 (pool 0 0 1000 4000 1 false) <> 0 /\
  fst (get_price0 (pool 0 0 1000 4000 1 false)) = Ok (4 * 10 ^ 18).
Proof.
  assert (Hr : reserve0 (pool 0 0 1000 4000 1 false) <> 0) by discriminate.
  split; [exact Hr|].
  destruct (pool_prices (pool 0 0 1000 4000 1 false)) as (_ & _ & _ & _ & T & _).
  rewrite (T Hr). vm_compute. reflexivity.
Defined.

Lemma swap_records_balances_witness :
  run (swap 0 90 50) (pool 1100 1000 1000 1000 1 false)
    = (Ok tt, snd (run (swap 0 90 50) (pool 1100 1000 1000 1000 1 false))) /\
  reserve1 (snd (run (swap 0 90 50) (pool 1100 1000 1000 1000 1 false))) = 910.
Proof.
  assert (E : run (swap 0 90 50) (pool 1100 1000 1000 1000 1 false)
    = (Ok tt, snd (run (swap 0 90 50) (pool 1100 1000 1000 1000 1 false))))
    by (vm_compute; reflexivity).
  split; [exact E|].
  rewrite (proj1 (proj2 (swap_records_balances 0 90 50 _ _ E))). vm_compute. reflexivity.
Defined.

Lemma mint_records_balances_witness :
  run (mint 1000 50) (pool 1000 4000 0 0 0 false) = (Ok 1000, after_first_mint) /\
  k_last after_first_mint = reserve0 after_first_mint * reserve1 after_first_mint.
Proof.
  assert (E : run (mint 1000 50) (pool 1000 4000 0 0 0 false) = (Ok 1000, after_first_mint))
    by (vm_compute; reflexivity).
  split; [exact E|].
  exact (proj2 (proj2 (proj2 (proj2 (proj2 (mint_records_balances 1000 50 _ _ _ E)))))).
Defined.

Lemma later_mint_shares_witness :
  lp_total_supply (pool 1100 4400 1000 4000 2000 false) <> 0 /\
  run (mint 1000 50) (pool 1100 4400 1000 4000 2000 false)
    = (Ok 200, snd (run (mint 1000 50) (pool 1100 4400 1000 4000 2000 false))) /\
  lp_total_supply (snd (run (mint 1000 50) (pool 1100 4400 1000 4000 2000 false))) = 2200.
Proof.
  assert (Hs : lp_total_supply (pool 1100 4400 1000 4000 2000 false) <> 0) by discriminate.
  assert (E : run (mint 1000 50) (pool 1100 4400 1000 4000 2000 false)
    = (Ok 200, snd (run (mint 1000 50) (pool 1100 4400 1000 4000 2000 false))))
    by (vm_compute; reflexivity).
  split; [exact Hs|]. split; [exact E|].
  pose proof (later_mint_shares 1000 50 _ _ _ Hs E) as T. cbv zeta in T.
  rewrite (proj1 (proj2 T)). reflexivity.
Defined.

Lemma burn_pays_pro_rata_witness :
  run (burn 60) after_first_mint = (Ok (500, 2000), snd (run (burn 60) after_first_mint)) /\
  lp_total_supply (snd (run (burn 60) after_first_mint)) = 1000.
Proof.
  assert (E : run (burn 60) after_first_mint = (Ok (500, 2000), snd (run (burn 60) after_first_mint)))
    by (vm_compute; reflexivity).
  split; [exact E|].
  pose proof (burn_pays_pro_rata 60 _ _ _ _ E) as T. cbv zeta in T.
  rewrite (proj1 (proj2 (proj2 (proj2 T)))). vm_compute. reflexivity.
Defined.

Lemma skim_leaves_reserves_witness :
  run (skim 50) (pool 1100 1000 1000 1000 1 false)
    = (Ok tt, snd (run (skim 50) (pool 1100 1000 1000 1000 1 false))) /\
  balance_of (ledger (snd (run (skim 50) (pool 1100 1000 1000 1000 1 false))))
    (token0 (pool 1100 1000 1000 1000 1 false)) (self_address (pool 1100 1000 1000 1000 1 false)) = 1000.
Proof.
  assert (E : run (skim 50) (pool 1100 1000 1000 1000 1 false)
    = (Ok tt, snd (run (skim 50) (pool 1100 1000 1000 1000 1 false))))
    by (vm_compute; reflexivity).
  split; [exact E|].
  rewrite (proj1 (skim_leaves_reserves fn_transfer_debits_sender fn_transfer_keeps_other_assets
                    50 (pool 1100 1000 1000 1000 1 false) _ ltac:(discriminate) ltac:(discriminate) E)).
  vm_compute. reflexivity.
Defined.

Lemma burn_reserves_match_balances_witness :
  run (burn 60) after_first_mint = (Ok (500, 2000), snd (run (burn 60) after_first_mint)) /\
  reserve0 (snd (run (burn 60) after_first_mint)) =
    balance_of (ledger (snd (run (burn 60) after_first_mint))) 1 100.
Proof.
  assert (E : run (burn 60) after_first_mint = (Ok (500, 2000), snd (run (burn 60) after_first_mint)))
    by (vm_compute; reflexivity).
  split; [exact E|].
  exact (proj1 (burn_reserves_match_balances fn_transfer_debits_sender
                  fn_transfer_keeps_other_assets 60 after_first_mint _ _ _
                  ltac:(vm_compute; discriminate) ltac:(vm_compute; discriminate) E)).
Defined.

Lemma deployed_pool_fixed_fields_witness :
  reachable 1000 fresh_pool (set_block_time 5 fresh_pool) /\
  factory (set_block_time 5 fresh_pool) = 0.
Proof.
  assert (R : reachable 1000 fresh_pool (set_block_time 5 fresh_pool))
    by (eapply reachable_step; [constructor | apply step_time]).
  split; [exact R|].
  exact (proj1 (deployed_pool_fixed_fields 1000 2 1 0 no_balances 100 0 _ R)).
Defined.

Lemma k_last_set_only_by_mint_witness :
  step 1000 (pool 1000 4000 0 0 0 false) after_first_mint /\
  k_last after_first_mint = 4000000.
Proof.
  assert (E : run (mint 1000 50) (pool 1000 4000 0 0 0 false) = (Ok 1000, after_first_mint))
    by (vm_compute; reflexivity).
  assert (S : step 1000 (pool 1000 4000 0 0 0 false) after_first_mint)
    by (eapply step_mint; exact E).
  split; [exact S|].
  destruct (k_last_set_only_by_mint 1000 _ _ S) as [K | [_ K]].
  - vm_compute in K. discriminate K.
  - rewrite K. vm_compute. reflexivity.
Defined.

Lemma minimum_liquidity_burnable_witness :
  run (mint 1000 50) (pool 1000 4000 0 0 0 false) = (Ok 1000, after_first_mint) /\
  run (burn 60) after_first_mint = (Ok (500, 2000), snd (run (burn 60) after_first_mint)) /\
  lp_total_supply (snd (run (burn 60) after_first_mint)) = 1000.
Proof.
  assert (E1 : run (mint 1000 50) (pool 1000 4000 0 0 0 false) = (Ok 1000, after_first_mint))
    by (vm_compute; reflexivity).
  assert (E2 : run (burn 60) after_first_mint = (Ok (500, 2000), snd (run (burn 60) after_first_mint)))
    by (vm_compute; reflexivity).
  split; [exact E1|]. split; [exact E2|].
  exact (proj1 (proj2 (proj2 (proj2 (proj2 (minimum_liquidity_burnable 1000 50 60
           (pool 1000 4000 0 0 0 false) _ _ _ _ _ eq_refl eq_refl ltac:(discriminate) E1 E2)))))).
Defined.

Lemma get_amounts_out_hops_witness :
  get_amounts_out chain3 600 [1; 2; 3] = Ok [600; 1000; 1] /\
  length [600; 1000; 1] = length [1; 2; 3].
Proof.
  assert (E : get_amounts_out chain3 600 [1; 2; 3] = Ok [600; 1000; 1]) by (vm_compute; reflexivity).
  split; [exact E|].
  exact (proj1 (proj2 (proj2 (get_amounts_out_hops chain3 600 [1; 2; 3]) _ E))).
Defined.

Lemma get_amounts_in_hops_witness :
  get_amounts_in chain3 1 [1; 2; 3] = Ok [1005; 1001; 1] /\
  nth (length [1005; 1001; 1] - 1) [1005; 1001; 1] 0 = 1.
Proof.
  assert (E : get_amounts_in chain3 1 [1; 2; 3] = Ok [1005; 1001; 1]) by (vm_compute; reflexivity).
  split; [exact E|].
  exact (proj1 (proj2 (proj2 (proj2 (get_amounts_in_hops chain3 1 [1; 2; 3]) _ E)))).
Defined.

Lemma exact_output_quote_covers_witness :
  get_amounts_in chain3 1 [1; 2; 3] = Ok [1005; 1001; 1] /\
  get_amounts_out chain3 1005 [1; 2; 3] = Ok [1005; 1001; 1] /\
  1 <= nth (length [1005; 1001; 1] - 1) [1005; 1001; 1] 0.
Proof.
  assert (Ei : get_amounts_in chain3 1 [1; 2; 3] = Ok [1005; 1001; 1]) by (vm_compute; reflexivity).
  assert (Eo : get_amounts_out chain3 1005 [1; 2; 3] = Ok [1005; 1001; 1]) by (vm_compute; reflexivity).
  assert (Hn : forall p, 0 <= fst (pair_reserves chain3 p) /\ 0 <= snd (pair_reserves chain3 p)).
  { intros p. cbn. destruct (p =? 3); cbn; lia. }
  split; [exact Ei|]. split; [exact Eo|].
  exact (exact_output_quote_covers chain3 1 [1; 2; 3] _ Hn ltac:(lia) Ei 1005 _ ltac:(cbn; lia) Eo).
Defined.

Lemma get_reserves_oriented_witness :
  get_reserves (chain_const 100 300) 2 1 = Ok (300, 100).
Proof.
  destruct (get_reserves_oriented (chain_const 100 300) 1 2) as (_ & _ & T).
  rewrite (T ltac:(discriminate) eq_refl). reflexivity.
Defined.

Lemma entry_points_check_deadline_witness :
  5 < RouterOps.block_time_of (RouterOps.env (stub_router chain3 (0, 0) true)) /\
  RouterOps.run (RouterOps.swap_exact_tokens_for_tokens 600 1 [1; 2; 3] 70 5)
    (stub_router chain3 (0, 0) true) = (Err DeadlineExpired, stub_router chain3 (0, 0) true).
Proof.
  assert (Hd : 5 < RouterOps.block_time_of (RouterOps.env (stub_router chain3 (0, 0) true)))
    by (vm_compute; reflexivity).
  split; [exact Hd|].
  exact (proj1 (proj2 (proj2 (entry_points_check_deadline _ 5 Hd))) 600 1 [1; 2; 3] 70).
Defined.

Lemma swap_exact_tokens_for_tokens_ok_witness :
  RouterOps.run (RouterOps.swap_exact_tokens_for_tokens 600 1 [1; 2; 3] 70 20)
    (stub_router chain3 (0, 0) true) = (Ok [600; 1000; 1], stub_router chain3 (0, 0) true) /\
  get_amounts_out (RouterOps.chain_of (stub_router chain3 (0, 0) true)) 600 [1; 2; 3] = Ok [600; 1000; 1].
Proof.
  assert (E : RouterOps.run (RouterOps.swap_exact_tokens_for_tokens 600 1 [1; 2; 3] 70 20)
    (stub_router chain3 (0, 0) true) = (Ok [600; 1000; 1], stub_router chain3 (0, 0) true))
    by (vm_compute; reflexivity).
  split; [exact E|].
  exact (proj1 (proj2 (swap_exact_tokens_for_tokens_ok 600 1 [1; 2; 3] 70 20 _ _ _ E))).
Defined.

Lemma swap_tokens_for_exact_tokens_ok_witness :
  RouterOps.run (RouterOps.swap_tokens_for_exact_tokens 1 2000 [1; 2; 3] 70 20)
    (stub_router chain3 (0, 0) true) = (Ok [1005; 1001; 1], stub_router chain3 (0, 0) true) /\
  nth 0 [1005; 1001; 1] 0 <= 2000.
Proof.
  assert (E : RouterOps.run (RouterOps.swap_tokens_for_exact_tokens 1 2000 [1; 2; 3] 70 20)
    (stub_router chain3 (0, 0) true) = (Ok [1005; 1001; 1], stub_router chain3 (0, 0) true))
    by (vm_compute; reflexivity).
  split; [exact E|].
  exact (proj1 (proj2 (proj2 (swap_tokens_for_exact_tokens_ok 1 2000 [1; 2; 3] 70 20 _ _ _ E)))).
Defined.

Lemma add_liquidity_ok_witness :
  RouterOps.run (RouterOps.add_liquidity 1 2 10 10 0 0 70 20)
    (stub_router (chain_const 100 100) (0, 0) true)
    = (Ok (10, 10, 1), stub_router (chain_const 100 100) (0, 0) true) /\
  calculate_liquidity_amounts (RouterOps.chain_of (stub_router (chain_const 100 100) (0, 0) true))
    1 2 10 10 0 0 = Ok (10, 10).
Proof.
  assert (E : RouterOps.run (RouterOps.add_liquidity 1 2 10 10 0 0 70 20)
    (stub_router (chain_const 100 100) (0, 0) true)
    = (Ok (10, 10, 1), stub_router (chain_const 100 100) (0, 0) true))
    by (vm_compute; reflexivity).
  split; [exact E|].
  exact (proj1 (proj2 (add_liquidity_ok 1 2 10 10 0 0 70 20 _ _ _ _ _ E))).
Defined.

(** The LP [transfer_from] of the stub reports failure, and the call still
    goes through. *)
Lemma remove_liquidity_outcome_witness :
  fst (RouterOps.run (RouterOps.remove_liquidity 1 2 5 0 0 70 20)
         (stub_router (chain_const 100 100) (3, 4) false)) = Ok (3, 4).
Proof.
  rewrite (remove_liquidity_outcome 1 2 5 0 0 70 20 (stub_router (chain_const 100 100) (3, 4) false)
             7 false (RouterOps.env (stub_router (chain_const 100 100) (3, 4) false))
             ltac:(apply Z.leb_le; reflexivity) eq_refl eq_refl).
  reflexivity.
Defined.

End ExtraExamples.
